(** * binfmt: the binfmt_misc registration manager

    A shallow embedding of [cmd/binfmt/main.go] and of the signature table
    ([configs], [allArch]) together with the properties of the table, of
    [install], [uninstall], [printStatus], [run] and [main].

    Go strings are byte strings: they are [string] here (a list of 8-bit
    characters).  The configuration table is a Go map and is a [gmap]; the
    set built by [allArch] is a [gset].  Everything the program asks of the
    operating system goes through one record of operations over an abstract
    world, so that every statement holds for any kernel behaviour. *)

From Stdlib Require Import ZArith Ascii String.
From stdpp Require Import gmap strings list fin_maps.

Local Open Scope Z_scope.

(** ** The pieces of Go's [strings] and [path/filepath] the program uses *)

Module Strings.

(** [strings.HasPrefix]:
    [len(s) >= len(prefix) && s[:len(prefix)] == prefix]. *)
Definition HasPrefix (s prefix : string) : bool :=
  (String.length prefix <=? String.length s)%nat
  && String.eqb (String.substring 0 (String.length prefix) s) prefix.

(** [strings.HasSuffix]:
    [len(s) >= len(suffix) && s[len(s)-len(suffix):] == suffix]. *)
Definition HasSuffix (s suffix : string) : bool :=
  (String.length suffix <=? String.length s)%nat
  && String.eqb
       (String.substring (String.length s - String.length suffix)
                         (String.length suffix) s)
       suffix.

(** [strings.ContainsRune] for a one-byte rune. *)
Fixpoint ContainsRune (s : string) (r : ascii) : bool :=
  match s with
  | EmptyString => false
  | String c s' => Ascii.eqb c r || ContainsRune s' r
  end.

(** [strings.TrimPrefix]. *)
Definition TrimPrefix (s prefix : string) : string :=
  if HasPrefix s prefix
  then String.substring (String.length prefix)
                        (String.length s - String.length prefix) s
  else s.

(** [strings.Split] for a one-byte separator: the pieces between the
    separators, one more than there are separators. *)
Fixpoint split_acc (sep : ascii) (cur : string) (s : string) : list string :=
  match s with
  | EmptyString => [String.rev cur]
  | String c s' =>
      if Ascii.eqb c sep
      then String.rev cur :: split_acc sep EmptyString s'
      else split_acc sep (String c cur) s'
  end.

Definition Split (s : string) (sep : ascii) : list string :=
  split_acc sep EmptyString s.

(** [strings.Join]. *)
Fixpoint Join (elems : list string) (sep : string) : string :=
  match elems with
  | [] => ""
  | [e] => e
  | e :: rest => e +:+ sep +:+ Join rest sep
  end.

End Strings.

Module Filepath.

(** [os.PathSeparator] on the platforms the program builds for. *)
Definition PathSeparator : ascii := "/"%char.

(** The elements of a path kept by [filepath.Clean]: empty and [.]
    elements are dropped, [..] removes the element before it, is dropped
    at the root, and is kept at the start of a relative path.  [kept] is
    the stack of elements, last one first. *)
Fixpoint clean_elems (rooted : bool) (kept : list string)
         (elems : list string) : list string :=
  match elems with
  | [] => rev kept
  | e :: rest =>
      if String.eqb e "" || String.eqb e "." then clean_elems rooted kept rest
      else if String.eqb e ".." then
        match kept with
        | k :: kept' =>
            if String.eqb k ".."
            then clean_elems rooted (e :: kept) rest
            else clean_elems rooted kept' rest
        | [] =>
            if rooted then clean_elems rooted kept rest
            else clean_elems rooted [e] rest
        end
      else clean_elems rooted (e :: kept) rest
  end.

(** [filepath.Clean] (Unix). *)
Definition Clean (path : string) : string :=
  match path with
  | EmptyString => "."
  | String c _ =>
      let rooted := Ascii.eqb c PathSeparator in
      let body :=
        Strings.Join (clean_elems rooted [] (Strings.Split path PathSeparator))
                     "/" in
      if rooted then "/" +:+ body
      else if String.eqb body "" then "." else body
  end.

(** [filepath.Join] (Unix): the elements from the first non-empty one on,
    joined by the separator and cleaned; the empty string when there is
    none. *)
Fixpoint Join (elem : list string) : string :=
  match elem with
  | [] => ""
  | e :: rest =>
      if String.eqb e "" then Join rest
      else Clean (Strings.Join elem "/")
  end.

Global Arguments Join : simpl never.

(** The last element of a cleaned path's element list. *)
Definition Base (path : string) : string :=
  match path with
  | EmptyString => "."
  | _ =>
      match rev (filter (fun e => negb (String.eqb e ""))
                        (Strings.Split path PathSeparator)) with
      | e :: _ => e
      | [] => "/"
      end
  end.

End Filepath.

(** ** The signature table *)

(** [type config struct { binary, magic, mask string }]. *)
Record config := Config {
  binary : string;
  magic : string;
  mask : string;
}.

(** [var configs = map[string]config{ ... }]: the composite literal, then
    the map built from it.  The magic and mask are Go raw strings: the
    backslashes are characters of the string. *)
Definition configs_literal : list (string * config) :=
  [
    ("amd64", Config "qemu-x86_64"
       "\x7fELF\x02\x01\x01\x00\x00\x00\x00\x00\x00\x00\x00\x00\x02\x00\x3e\x00"
       "\xff\xff\xff\xff\xff\xfe\xfe\x00\xff\xff\xff\xff\xff\xff\xff\xff\xfe\xff\xff\xff");
    ("arm64", Config "qemu-aarch64"
       "\x7fELF\x02\x01\x01\x00\x00\x00\x00\x00\x00\x00\x00\x00\x02\x00\xb7\x00"
       "\xff\xff\xff\xff\xff\xff\xff\x00\xff\xff\xff\xff\xff\xff\xff\xff\xfe\xff\xff\xff");
    ("arm", Config "qemu-arm"
       "\x7fELF\x01\x01\x01\x00\x00\x00\x00\x00\x00\x00\x00\x00\x02\x00\x28\x00"
       "\xff\xff\xff\xff\xff\xff\xff\x00\xff\xff\xff\xff\xff\xff\xff\xff\xfe\xff\xff\xff");
    ("s390x", Config "qemu-s390x"
       "\x7fELF\x02\x02\x01\x00\x00\x00\x00\x00\x00\x00\x00\x00\x00\x02\x00\x16"
       "\xff\xff\xff\xff\xff\xff\xff\x00\xff\xff\xff\xff\xff\xff\xff\xff\xff\xfe\xff\xff");
    ("ppc64le", Config "qemu-ppc64le"
       "\x7fELF\x02\x01\x01\x00\x00\x00\x00\x00\x00\x00\x00\x00\x02\x00\x15\x00"
       "\xff\xff\xff\xff\xff\xff\xff\x00\xff\xff\xff\xff\xff\xff\xff\xff\xfe\xff\xff\x00");
    ("riscv64", Config "qemu-riscv64"
       "\x7fELF\x02\x01\x01\x00\x00\x00\x00\x00\x00\x00\x00\x00\x02\x00\xf3\x00"
       "\xff\xff\xff\xff\xff\xff\xff\x00\xff\xff\xff\xff\xff\xff\xff\xff\xfe\xff\xff\xff");
    ("386", Config "qemu-i386"
       "\x7fELF\x01\x01\x01\x00\x00\x00\x00\x00\x00\x00\x00\x00\x02\x00\x03\x00"
       "\xff\xff\xff\xff\xff\xfe\xfe\x00\xff\xff\xff\xff\xff\xff\xff\xff\xfe\xff\xff\xff");
    ("mips64le", Config "qemu-mips64el"
       "\x7fELF\x02\x01\x01\x00\x00\x00\x00\x00\x00\x00\x00\x00\x02\x00\x08\x00"
       "\xff\xff\xff\xff\xff\xff\xff\x00\x00\xff\xff\xff\xff\xff\xff\xff\xfe\xff\xff\xff");
    ("mips64", Config "qemu-mips64"
       "\x7fELF\x02\x02\x01\x00\x00\x00\x00\x00\x00\x00\x00\x00\x00\x02\x00\x08"
       "\xff\xff\xff\xff\xff\xff\xff\x00\x00\xff\xff\xff\xff\xff\xff\xff\xff\xfe\xff\xff");
    ("loong64", Config "qemu-loongarch64"
       "\x7fELF\x02\x01\x01\x00\x00\x00\x00\x00\x00\x00\x00\x00\x02\x00\x02\x01"
       "\xff\xff\xff\xff\xff\xff\xff\xfc\x00\xff\xff\xff\xff\xff\xff\xff\xfe\xff\xff\xff")
  ].

Definition configs : gmap string config := list_to_map configs_literal.

(** *** What the kernel does with a magic and a mask

    The kernel decodes the magic and mask fields of a registration record
    ([\x] followed by one or two hexadecimal digits is one byte, any other
    character stands for itself) and compares the start of an executable
    with the magic under the mask. *)

(** The value of a hexadecimal digit. *)
Definition hex_to_bin (c : ascii) : option Z :=
  let n := Z.of_N (N_of_ascii c) in
  if (48 <=? n) && (n <=? 57) then Some (n - 48)
  else if (97 <=? n) && (n <=? 102) then Some (n - 87)
  else if (65 <=? n) && (n <=? 70) then Some (n - 55)
  else None.

(** The code of a character. *)
Definition byte_of (c : ascii) : Z := Z.of_N (N_of_ascii c).

(** The decoding of a field.  After a backslash, [x] and one or two
    hexadecimal digits give one byte; a backslash that starts no such escape
    and every other character give their own code. *)
Fixpoint unescape (s : string) : list Z :=
  match s with
  | EmptyString => []
  | String c tl =>
      let escape :=
        if Ascii.eqb c "\"%char then
          match tl with
          | String x (String h1 rest) =>
              if Ascii.eqb x "x"%char then
                match hex_to_bin h1 with
                | Some d1 =>
                    match rest with
                    | String h2 rest' =>
                        match hex_to_bin h2 with
                        | Some d2 => Some ((16 * d1 + d2) :: unescape rest')
                        | None => Some (d1 :: unescape rest)
                        end
                    | EmptyString => Some [d1]
                    end
                | None => None
                end
              else None
          | _ => None
          end
        else None in
      match escape with
      | Some bytes => bytes
      | None => byte_of c :: unescape tl
      end
  end.

Definition magic_bytes (c : config) : list Z := unescape (magic c).
Definition mask_bytes (c : config) : list Z := unescape (mask c).

(** One byte of the comparison: [(s[j] ^ magic[j]) & mask[j]] is zero. *)
Definition byte_matches (b g k : Z) : bool := Z.land (Z.lxor b g) k =? 0.

Fixpoint bytes_match (s gs ks : list Z) : bool :=
  match gs, ks, s with
  | [], _, _ => true
  | g :: gs', k :: ks', b :: s' => byte_matches b g k && bytes_match s' gs' ks'
  | _ :: _, _, _ => false
  end.

(** A byte sequence matches an entry when its first bytes agree with the
    magic on every bit the mask selects. *)
Definition sig_matches (c : config) (s : list Z) : bool :=
  bytes_match s (magic_bytes c) (mask_bytes c).

(** The position [i] tells two entries apart: both masks select a bit there
    on which the magics differ. *)
Definition separates (c1 c2 : config) (i : nat) : Prop :=
  ∃ g1 k1 g2 k2,
    magic_bytes c1 !! i = Some g1 ∧ mask_bytes c1 !! i = Some k1 ∧
    magic_bytes c2 !! i = Some g2 ∧ mask_bytes c2 !! i = Some k2 ∧
    Z.land (Z.land k1 k2) (Z.lxor g1 g2) ≠ 0.

(** The first position that tells two entries apart, if there is one. *)
Fixpoint first_separating (g1 k1 g2 k2 : list Z) (i : nat) : option nat :=
  match g1, k1, g2, k2 with
  | a1 :: g1', m1 :: k1', a2 :: g2', m2 :: k2' =>
      if Z.land (Z.land m1 m2) (Z.lxor a1 a2) =? 0
      then first_separating g1' k1' g2' k2' (S i)
      else Some i
  | _, _, _, _ => None
  end.

Definition separating_position (c1 c2 : config) : option nat :=
  first_separating (magic_bytes c1) (mask_bytes c1)
                   (magic_bytes c2) (mask_bytes c2) 0.

(** ** Errors, log records and system calls *)

(** Go [error] values, as far as the program builds and inspects them.
    Format strings are kept as the source has them, next to their
    arguments. *)
Inductive error :=
| Errno (e : Z)                                   (* syscall.Errno *)
| PathError (op path : string) (err : error)      (* *os.PathError *)
| New (msg : string)                              (* errors.New *)
| Errorf (format : string) (args : list fmt_arg)  (* errors.Errorf *)
| Wrapf (cause : error) (format : string) (args : list fmt_arg)
| LibError (msg : string)                         (* an error of a library *)
with fmt_arg :=
| ArgString (s : string)
| ArgError (e : error).

Definition ENOENT : Z := 2.
Definition EPERM : Z := 1.
Definition EEXIST : Z := 17.

(** [errors.As(err, &pathErr)] for [pathErr *os.PathError]: the first
    [*os.PathError] on the chain of [err], with its fields. *)
Fixpoint errors_As_PathError (err : error) : option (string * string * error) :=
  match err with
  | PathError op path e => Some (op, path, e)
  | Wrapf cause _ _ => errors_As_PathError cause
  | _ => None
  end.

(** [errors.Is(err, target)] for a [syscall.Errno] target. *)
Fixpoint errors_Is_Errno (err : error) (target : Z) : bool :=
  match err with
  | Errno e => e =? target
  | PathError _ _ e => errors_Is_Errno e target
  | Wrapf cause _ _ => errors_Is_Errno cause target
  | _ => false
  end.

(** [ocispecs.Platform], the fields a platform string names. *)
Record Platform := {
  OS : string;
  Architecture : string;
  Variant : string;
}.

(** The structure [printStatus] marshals to JSON. *)
Record Status := {
  Supported : list string;
  Emulators : list string;
}.

(** What a run does to the outside, in order. *)
Inductive event :=
| EvStat (path : string)
| EvMount (source target fstype : string)
| EvUnmount (target : string)
| EvReadDir (path : string)
| EvReadFile (path : string)
| EvOpenFile (path : string)
| EvWrite (path data : string)
| EvClose (path : string)
| EvWriteFile (path data : string)
| EvGlob (pattern : string)
| EvSupportedPlatforms
| EvLog (format : string) (args : list fmt_arg)
| EvPrint (out : Status).

(** The events that write to a file. *)
Definition is_write (ev : event) : bool :=
  match ev with
  | EvWrite _ _ | EvWriteFile _ _ => true
  | _ => false
  end.

(** The operating system, as the program sees it: the calls it makes, over
    a world the calls read and change.  A failed call gives its error. *)
Record System (World : Type) := {
  os_Stat : World → string → option error;
  os_ReadDir : World → string → error + list string;
  os_ReadFile : World → string → error + string;
  os_OpenFile : World → string → option error;
  file_Write : World → string → string → World * option error;
  os_WriteFile : World → string → string → World * option error;
  syscall_Mount : World → string → string → string → World * option Z;
  syscall_Unmount : World → string → World * option Z;
  filepath_Glob : World → string → error + list string;
  archutil_SupportedPlatforms : World → list Platform;
}.

Arguments os_Stat {World}.
Arguments os_ReadDir {World}.
Arguments os_ReadFile {World}.
Arguments os_OpenFile {World}.
Arguments file_Write {World}.
Arguments os_WriteFile {World}.
Arguments syscall_Mount {World}.
Arguments syscall_Unmount {World}.
Arguments filepath_Glob {World}.
Arguments archutil_SupportedPlatforms {World}.

(** The libraries whose results depend on their arguments only. *)
Record Library := {
  platforms_Parse : string → error + Platform;
  platforms_Normalize : Platform → Platform;
  platforms_FormatAll : Platform → string;
  runtime_Version : string;
}.

(** The package variables set from the command line, the environment of the
    process, and the order in which this run's [range configs] visits the
    keys of the map. *)
Record Process := {
  mount : string;
  toInstall : string;
  toUninstall : string;
  flVersion : bool;
  environ : gmap string string;
  range_configs : list string;
}.

(** [os.Getenv]: the empty string for a variable that is not set. *)
Definition Getenv (p : Process) (key : string) : string :=
  default "" (environ p !! key).

(** What [flag.Parse] leaves [main] with: the variables set, or the process
    ended by the flag package itself. *)
Inductive parse_result :=
| Parsed (p : Process)
| ParseExit (code : Z).

(** *** Computations over the world *)

Definition M (World A : Type) : Type := World → A * World * list event.

Definition ret {World A : Type} (a : A) : M World A := λ w, (a, w, []).

Definition bind {World A B : Type} (m : M World A) (f : A → M World B)
  : M World B :=
  λ w, let '(a, w1, t1) := m w in
       let '(b, w2, t2) := f a w1 in
       (b, w2, t1 ++ t2).

Notation "'do' x <- m ; k" := (bind m (λ x, k))
  (at level 10, x name, m at level 100, k at level 200).
Notation "m ;; k" := (bind m (λ _, k))
  (at level 100, k at level 200, right associativity).

Definition emit {World : Type} (ev : event) : M World unit :=
  λ w, (tt, w, [ev]).

(** A call that reads the world. *)
Definition observe {World A : Type} (ev : event) (f : World → A) : M World A :=
  λ w, (f w, w, [ev]).

(** A call that may change the world. *)
Definition perform {World A : Type} (ev : event) (f : World → World * A)
  : M World A :=
  λ w, let '(w', a) := f w in (a, w', [ev]).

Definition result {World A : Type} (r : A * World * list event) : A := r.1.1.
Definition world_after {World A : Type} (r : A * World * list event) : World :=
  r.1.2.
Definition trace {World A : Type} (r : A * World * list event) : list event :=
  r.2.

(** ** The program *)

Definition revision : string := "unknown".
Definition qemuVersion : string := "unknown".

(** The condition under which [uninstall] skips a directory entry. *)
Definition uninstall_reserved (name : string) : bool :=
  String.eqb name "register" || String.eqb name "status"
  || String.eqb name "WSLInterop".

(** The condition under which [uninstall] takes an entry for [arch]. *)
Definition uninstall_matches (arch name : string) : bool :=
  String.eqb name arch || Strings.HasSuffix name ("-" +:+ arch).

(** The condition under which [printStatus] skips a directory entry. *)
Definition status_reserved (name : string) : bool :=
  String.eqb name "register" || String.eqb name "status".

(** [getBinaryNames]. *)
Definition getBinaryNames (p : Process) (cfg : config)
  : error + (string * string) :=
  let binaryPath :=
    let v := Getenv p "QEMU_BINARY_PATH" in
    if negb (String.eqb v "") then v else "/usr/bin" in
  let binaryBasename := binary cfg in
  let binaryPrefix := Getenv p "QEMU_BINARY_PREFIX" in
  if negb (String.eqb binaryPrefix "") then
    if Strings.ContainsRune binaryPrefix Filepath.PathSeparator then
      inl (New "binary prefix must not contain path separator (Hint: set $QEMU_BINARY_PATH to specify the directory)")
    else
      let binaryBasename := binaryPrefix +:+ binaryBasename in
      inr (binaryBasename, Filepath.Join [binaryPath; binaryBasename])
  else
    inr (binaryBasename, Filepath.Join [binaryPath; binaryBasename]).

(** The flags [install] puts in a record. *)
Definition install_flags (p : Process) : string :=
  if negb (String.eqb (Getenv p "QEMU_PRESERVE_ARGV0") "")
  then "CF" +:+ "P" else "CF".

(** [fmt.Sprintf(":%s:M:0:%s:%s:%s:%s", ...)]. *)
Definition registration_line
           (binaryBasename magic mask binaryFullpath flags : string) : string :=
  ":" +:+ binaryBasename +:+ ":M:0:" +:+ magic +:+ ":" +:+ mask +:+ ":"
  +:+ binaryFullpath +:+ ":" +:+ flags.

Section Program.

Context {World : Type} (sys : System World) (lib : Library) (p : Process).

Local Abbreviation IO := (M World).

(** The body of the loop of [uninstall]. *)
Fixpoint uninstall_loop (arch : string) (fis : list string)
  : IO (option error) :=
  match fis with
  | [] => ret (Some (Errorf "not found" []))
  | name :: rest =>
      if uninstall_reserved name then uninstall_loop arch rest
      else if uninstall_matches arch name then
        let path := Filepath.Join [mount p; name] in
        perform (EvWriteFile path "-1") (λ w, os_WriteFile sys w path "-1")
      else uninstall_loop arch rest
  end.

Definition uninstall (arch : string) : IO (option error) :=
  do fis <- observe (EvReadDir (mount p)) (λ w, os_ReadDir sys w (mount p));
  match fis with
  | inl err => ret (Some err)
  | inr fis => uninstall_loop arch fis
  end.

(** The error [install] returns when the register file does not open. *)
Definition install_open_error (register : string) (err : error) : error :=
  match errors_As_PathError err with
  | Some (_, _, e) =>
      if errors_Is_Errno e ENOENT then
        Errorf "ENOENT opening %s is it mounted?" [ArgString register]
      else if errors_Is_Errno e EPERM then
        Errorf "EPERM opening %s check permissions?" [ArgString register]
      else Errorf "Cannot open %s: %s" [ArgString register; ArgError err]
  | None => Errorf "Cannot open %s: %s" [ArgString register; ArgError err]
  end.

(** The error [install] returns when the write fails. *)
Definition install_write_error
           (binaryBasename binaryFullpath register : string) (err : error)
  : error :=
  match errors_As_PathError err with
  | Some (_, _, e) =>
      if errors_Is_Errno e EEXIST then
        Errorf "%s already registered" [ArgString binaryBasename]
      else Errorf "cannot register %q to %s: %s"
             [ArgString binaryFullpath; ArgString register; ArgError err]
  | None =>
      Errorf "cannot register %q to %s: %s"
        [ArgString binaryFullpath; ArgString register; ArgError err]
  end.

Definition install (arch : string) : IO (option error) :=
  match configs !! arch with
  | None =>
      ret (Some (Errorf "unsupported architecture: %v" [ArgString arch]))
  | Some cfg =>
      let register := Filepath.Join [mount p; "register"] in
      do opened <- observe (EvOpenFile register)
                           (λ w, os_OpenFile sys w register);
      match opened with
      | Some err => ret (Some (install_open_error register err))
      | None =>
          let flags := install_flags p in
          match getBinaryNames p cfg with
          | inl err => emit (EvClose register);; ret (Some err)
          | inr (binaryBasename, binaryFullpath) =>
              let line :=
                registration_line binaryBasename (magic cfg) (mask cfg)
                                  binaryFullpath flags in
              do written <- perform (EvWrite register line)
                              (λ w, file_Write sys w register line);
              emit (EvClose register);;
              ret (match written with
                   | Some err =>
                       Some (install_write_error binaryBasename
                               binaryFullpath register err)
                   | None => None
                   end)
          end
      end
  end.

(** [formatPlatforms]. *)
Definition formatPlatforms (ps : list Platform) : list string :=
  map (λ pp, platforms_FormatAll lib (platforms_Normalize lib pp)) ps.

Definition SupportedPlatforms : IO (list Platform) :=
  observe EvSupportedPlatforms (λ w, archutil_SupportedPlatforms sys w).

(** The loop of [printStatus]; [emulators] is the slice built so far. *)
Fixpoint printStatus_loop (fis : list string) (emulators : list string)
  : IO (error + list string) :=
  match fis with
  | [] => ret (inr emulators)
  | f :: rest =>
      if status_reserved f then printStatus_loop rest emulators
      else
        let path := Filepath.Join [mount p; f] in
        do dt <- observe (EvReadFile path) (λ w, os_ReadFile sys w path);
        match dt with
        | inl err => ret (inl err)
        | inr dt =>
            if Strings.HasPrefix dt "enabled"
            then printStatus_loop rest (emulators ++ [f])
            else printStatus_loop rest emulators
        end
  end.

(** [printStatus].  Marshalling two string slices cannot fail. *)
Definition printStatus : IO (option error) :=
  do fis <- observe (EvReadDir (mount p)) (λ w, os_ReadDir sys w (mount p));
  match fis with
  | inl err => ret (Some err)
  | inr fis =>
      do emulators <- printStatus_loop fis [];
      match emulators with
      | inl err => ret (Some err)
      | inr emulators =>
          do supported <- SupportedPlatforms;
          emit (EvPrint {| Supported := formatPlatforms supported;
                           Emulators := emulators |});;
          ret None
      end
  end.

(** [parseArch]. *)
Definition parseArch (input : string) : list string :=
  if String.eqb input "" then []
  else map (λ v, match platforms_Parse lib v with
                 | inl _ => v
                 | inr pl => Architecture pl
                 end)
           (Strings.Split input ","%char).

(** The loop of [parseUninstall]. *)
Fixpoint parseUninstall_loop (vs : list string) : IO (list string) :=
  match vs with
  | [] => ret []
  | v :: rest =>
      let v :=
        match platforms_Parse lib v with
        | inr pl =>
            match configs !! Architecture pl with
            | Some c => Strings.TrimPrefix (binary c) "qemu-"
            | None => v
            end
        | inl _ => v
        end in
      let pattern := Filepath.Join [mount p; v] in
      do globbed <- observe (EvGlob pattern)
                            (λ w, filepath_Glob sys w pattern);
      let fis := match globbed with inr fis => fis | inl _ => [] end in
      let unmatched :=
        match globbed with
        | inl _ => [v]
        | inr [] => [v]
        | inr _ => []
        end in
      do out <- parseUninstall_loop rest;
      ret (unmatched ++ map Filepath.Base fis ++ out)
  end.

Definition parseUninstall (input : string) : IO (list string) :=
  if String.eqb input "" then ret []
  else parseUninstall_loop (Strings.Split input ","%char).

(** The first loop of [allArch]: the architectures of the supported
    platforms. *)
Fixpoint allArch_supported (pps : list string) (m : gset string)
  : IO (gset string) :=
  match pps with
  | [] => ret m
  | pp :: rest =>
      match platforms_Parse lib pp with
      | inr pl => allArch_supported rest ({[Architecture pl]} ∪ m)
      | inl err =>
          emit (EvLog "error: %+v" [ArgError err]);;
          allArch_supported rest m
      end
  end.

(** The second loop of [allArch], over the keys of [configs] in the order
    of this run. *)
Fixpoint allArch_loop (m : gset string) (names : list string)
         (out : list string) : IO (list string) :=
  match names with
  | [] => ret out
  | name :: rest =>
      if decide (name ∈ m) then allArch_loop m rest out
      else
        match getBinaryNames p (default (Config "" "" "") (configs !! name)) with
        | inr (_, fullPath) =>
            do st <- observe (EvStat fullPath) (λ w, os_Stat sys w fullPath);
            match st with
            | None => allArch_loop m rest (out ++ [name])
            | Some _ => allArch_loop m rest out
            end
        | inl _ => allArch_loop m rest (out ++ [name])
        end
  end.

Definition allArch : IO (list string) :=
  do supported <- SupportedPlatforms;
  do m <- allArch_supported (formatPlatforms supported) ∅;
  allArch_loop m (range_configs p) [].

(** The loops of [run] over the names to uninstall and to install. *)
Fixpoint run_uninstall (names : list string) : IO unit :=
  match names with
  | [] => ret tt
  | name :: rest =>
      do err <- uninstall name;
      match err with
      | None => emit (EvLog "uninstalling: %s OK" [ArgString name])
      | Some err =>
          emit (EvLog "uninstalling: %s %v" [ArgString name; ArgError err])
      end;;
      run_uninstall rest
  end.

Fixpoint run_install (names : list string) : IO unit :=
  match names with
  | [] => ret tt
  | name :: rest =>
      do err <- install name;
      match err with
      | None => emit (EvLog "installing: %s OK" [ArgString name])
      | Some err =>
          emit (EvLog "installing: %s %v" [ArgString name; ArgError err])
      end;;
      run_install rest
  end.

(** [run] once the file system is mounted. *)
Definition run_mounted : IO (option error) :=
  do names <- parseUninstall (toUninstall p);
  run_uninstall names;;
  do installArchs <-
    (if String.eqb (toInstall p) "all" then allArch
     else ret (parseArch (toInstall p)));
  run_install installArchs;;
  printStatus.

(** [run].  The deferred unmount runs when [run] returns, after the
    result of [printStatus] is set. *)
Definition run : IO (option error) :=
  if flVersion p then
    emit (EvLog "binfmt/%s qemu/%s go/%s"
            [ArgString revision; ArgString qemuVersion;
             ArgString (String.substring 2
                          (String.length (runtime_Version lib) - 2)
                          (runtime_Version lib))]);;
    ret None
  else
    let status := Filepath.Join [mount p; "status"] in
    do st <- observe (EvStat status) (λ w, os_Stat sys w status);
    match st with
    | None => run_mounted
    | Some _ =>
        do mounted <-
          perform (EvMount "binfmt_misc" (mount p) "binfmt_misc")
            (λ w, syscall_Mount sys w "binfmt_misc" (mount p) "binfmt_misc");
        match mounted with
        | Some e =>
            ret (Some (Wrapf (Errno e)
                         "cannot mount binfmt_misc filesystem at %s"
                         [ArgString (mount p)]))
        | None =>
            do err <- run_mounted;
            perform (EvUnmount (mount p))
              (λ w, syscall_Unmount sys w (mount p));;
            ret err
        end
    end.

End Program.

(** [main], from the result of [flag.Parse] on.  A Go program whose [main]
    returns ends with status 0. *)
Definition main {World : Type} (sys : System World) (lib : Library)
           (parsed : parse_result) : M World Z :=
  match parsed with
  | ParseExit code => ret code
  | Parsed p =>
      do err <- run sys lib p;
      match err with
      | Some err => emit (EvLog "error: %+v" [ArgError err]);; ret 0
      | None => ret 0
      end
  end.

(** ** A small system to run the program on

    A directory of binfmt_misc entries with their contents, the files on
    disk, and a kernel that registers an entry when a record is written to
    [register] and removes one when [-1] is written to it. *)

Module Sim.

Record world := {
  mounted : bool;
  mountable : bool;
  entries : list (string * string);
  disk : list string;
  native : list Platform;
}.

Definition mnt : string := "/proc/sys/fs/binfmt_misc".

Definition entry_path (name : string) : string := Filepath.Join [mnt; name].

Definition find_entry (w : world) (path : string) : option (string * string) :=
  if mounted w
  then List.find (λ e, String.eqb (entry_path e.1) path) (entries w)
  else None.

Definition no_such (op path : string) : error :=
  PathError op path (Errno ENOENT).

Definition sys : System world := {|
  os_Stat w path :=
    if existsb (String.eqb path) (disk w) || bool_decide (is_Some (find_entry w path))
    then None else Some (no_such "stat" path);
  os_ReadDir w path :=
    if mounted w && String.eqb path mnt then inr (entries w).*1
    else if String.eqb path mnt then inr []
    else inl (no_such "open" path);
  os_ReadFile w path :=
    match find_entry w path with
    | Some e => inr e.2
    | None => inl (no_such "open" path)
    end;
  os_OpenFile w path :=
    if String.eqb path (entry_path "register")
       && bool_decide (is_Some (find_entry w path))
    then None else Some (no_such "open" path);
  file_Write w path data :=
    let name := default "" (Strings.Split data ":"%char !! 1%nat) in
    if bool_decide (is_Some (find_entry w (entry_path name)))
    then (w, Some (PathError "write" path (Errno EEXIST)))
    else ({| mounted := mounted w; mountable := mountable w;
             entries := (name, "enabled") :: entries w;
             disk := disk w; native := native w |}, None);
  os_WriteFile w path data :=
    match find_entry w path with
    | Some e =>
        if String.eqb data "-1" then
          ({| mounted := mounted w; mountable := mountable w;
              entries := List.filter (λ e', negb (String.eqb e'.1 e.1))
                                     (entries w);
              disk := disk w; native := native w |}, None)
        else (w, None)
    | None => (w, Some (no_such "open" path))
    end;
  syscall_Mount w source target fstype :=
    if mountable w then
      ({| mounted := true; mountable := mountable w; entries := entries w;
          disk := disk w; native := native w |}, None)
    else (w, Some EPERM);
  syscall_Unmount w target :=
    ({| mounted := false; mountable := mountable w; entries := entries w;
        disk := disk w; native := native w |}, None);
  filepath_Glob w pattern :=
    match find_entry w pattern with
    | Some e => inr [pattern]
    | None => inr []
    end;
  archutil_SupportedPlatforms w := native w;
|}.

Definition lib : Library := {|
  platforms_Parse s :=
    match Strings.Split s "/"%char with
    | [a] =>
        if String.eqb a "" then inl (LibError "invalid platform")
        else inr {| OS := "linux"; Architecture := a; Variant := "" |}
    | [o; a] => inr {| OS := o; Architecture := a; Variant := "" |}
    | [o; a; v] => inr {| OS := o; Architecture := a; Variant := v |}
    | _ => inl (LibError "invalid platform")
    end;
  platforms_Normalize pl := pl;
  platforms_FormatAll pl :=
    if String.eqb (Variant pl) "" then OS pl +:+ "/" +:+ Architecture pl
    else OS pl +:+ "/" +:+ Architecture pl +:+ "/" +:+ Variant pl;
  runtime_Version := "go1.23.0";
|}.

Definition amd64 : Platform :=
  {| OS := "linux"; Architecture := "amd64"; Variant := "" |}.

(** A mounted file system with one registration, and the emulator for
    arm64 on disk. *)
Definition w_mounted : world := {|
  mounted := true;
  mountable := true;
  entries := [("qemu-aarch64",
               "enabled" +:+ String (ascii_of_nat 10)
                                    "interpreter /usr/bin/qemu-aarch64");
              ("qemu-riscv64", "disabled");
              ("register", ""); ("status", "enabled")];
  disk := ["/usr/bin/qemu-aarch64"; "/usr/bin/qemu-arm"];
  native := [amd64];
|}.

(** A file system that is not mounted and cannot be. *)
Definition w_unmountable : world := {|
  mounted := false;
  mountable := false;
  entries := [("register", ""); ("status", "enabled")];
  disk := [];
  native := [amd64];
|}.

Definition process (install uninstall : string)
           (env : list (string * string)) : Process := {|
  mount := mnt;
  toInstall := install;
  toUninstall := uninstall;
  flVersion := false;
  environ := list_to_map env;
  range_configs := (map_to_list configs).*1;
|}.

End Sim.

(** The small system with one entry that does not read: reading
    [qemu-riscv64] is refused. *)
Definition locked_sys : System Sim.world := {|
  os_Stat := os_Stat Sim.sys;
  os_ReadDir := os_ReadDir Sim.sys;
  os_ReadFile w path :=
    if String.eqb path (Sim.entry_path "qemu-riscv64")
    then inl (PathError "open" path (Errno 13))
    else os_ReadFile Sim.sys w path;
  os_OpenFile := os_OpenFile Sim.sys;
  file_Write := file_Write Sim.sys;
  os_WriteFile := os_WriteFile Sim.sys;
  syscall_Mount := syscall_Mount Sim.sys;
  syscall_Unmount := syscall_Unmount Sim.sys;
  filepath_Glob := filepath_Glob Sim.sys;
  archutil_SupportedPlatforms := archutil_SupportedPlatforms Sim.sys;
|}.

(** A file system that is not mounted and can be. *)
Definition w_mountable : Sim.world := {|
  Sim.mounted := false;
  Sim.mountable := true;
  Sim.entries := [("register", ""); ("status", "enabled")];
  Sim.disk := [];
  Sim.native := [Sim.amd64];
|}.

(** ** Notions the statements use *)

Section Notions.

Context {World : Type} (sys : System World) (lib : Library) (p : Process).

(** An entry [uninstall] passes over: it is reserved or does not match. *)
Definition passed_over (arch name : string) : Prop :=
  uninstall_reserved name = true ∨ uninstall_matches arch name = false.

(** What reading the entry [name] of the mount point gives. *)
Definition entry_content (w : World) (name : string) : error + string :=
  os_ReadFile sys w (Filepath.Join [mount p; name]).

(** The entries [printStatus] lists. *)
Definition listed (w : World) (name : string) : bool :=
  negb (status_reserved name)
  && match entry_content w name with
     | inr dt => Strings.HasPrefix dt "enabled"
     | inl _ => false
     end.

Definition is_ReadFile (ev : event) : Prop := ∃ path, ev = EvReadFile path.

(** The architecture of a platform string that parses. *)
Definition parsed_arch (pp : string) : option string :=
  match platforms_Parse lib pp with
  | inr pl => Some (Architecture pl)
  | inl _ => None
  end.

(** The architectures of the platforms the host supports. *)
Definition supported_archs (w : World) : gset string :=
  list_to_set
    (omap parsed_arch
          (formatPlatforms lib (archutil_SupportedPlatforms sys w))).

(** The binary of a configuration resolves to a file that is there, or
    does not resolve. *)
Definition binary_found (w : World) (cfg : config) : bool :=
  match getBinaryNames p cfg with
  | inr (_, fullPath) =>
      match os_Stat sys w fullPath with None => true | Some _ => false end
  | inl _ => true
  end.

Definition allArch_keeps (m : gset string) (w : World) (name : string) : bool :=
  bool_decide (name ∉ m)
  && binary_found w (default (Config "" "" "") (configs !! name)).

End Notions.

(** *** Classes of events and of computations *)

(** Every event of a computation, in every world, satisfies [P]. *)
Definition emits_only {World A : Type} (P : event → Prop) (m : M World A)
  : Prop :=
  ∀ w, Forall P (trace (m w)).

(** A computation that leaves every world as it found it. *)
Definition keeps_world {World A : Type} (m : M World A) : Prop :=
  ∀ w, world_after (m w) = w.

(** The mount and the unmount. *)
Definition is_mount (ev : event) : bool :=
  match ev with
  | EvMount _ _ _ | EvUnmount _ => true
  | _ => false
  end.

(** The calls that only read the world. *)
Definition is_read (ev : event) : bool :=
  match ev with
  | EvStat _ | EvReadDir _ | EvReadFile _ | EvGlob _ | EvSupportedPlatforms =>
      true
  | _ => false
  end.

Definition is_Glob (ev : event) : Prop := ∃ pattern, ev = EvGlob pattern.

Definition is_log (ev : event) : bool :=
  match ev with
  | EvLog _ _ => true
  | _ => false
  end.

Definition is_print (ev : event) : bool :=
  match ev with
  | EvPrint _ => true
  | _ => false
  end.

(** The name a log record of [run] is about: the first argument of its
    format, when that is a string. *)
Definition log_subject (ev : event) : option string :=
  match ev with
  | EvLog _ (ArgString name :: _) => Some name
  | _ => None
  end.

(** The log record [run] writes for one name, by the outcome. *)
Definition outcome_log (verb : string) (name : string) (err : option error)
  : event :=
  match err with
  | None => EvLog (verb +:+ ": %s OK") [ArgString name]
  | Some err => EvLog (verb +:+ ": %s %v") [ArgString name; ArgError err]
  end.

(** The match of [uninstall] with its conditions spelled out: the entry is
    none of the three reserved names, and its name is the target or ends
    with [-] and the target. *)
Definition deregistration_match (arch name : string) : Prop :=
  name ≠ "register" ∧ name ≠ "status" ∧ name ≠ "WSLInterop" ∧
  (name = arch ∨ ∃ front, name = front +:+ "-" +:+ arch).

(** What [parseUninstall] looks for in place of a piece of the selector: the
    binary of its architecture without the leading [qemu-] when the piece
    parses as a platform whose architecture is in [configs], the piece
    itself otherwise. *)
Definition uninstall_piece (lib : Library) (v : string) : string :=
  match platforms_Parse lib v with
  | inr pl =>
      match configs !! Architecture pl with
      | Some c => Strings.TrimPrefix (binary c) "qemu-"
      | None => v
      end
  | inl _ => v
  end.

(** The targets one piece of the selector stands for in the world [w]: the
    base names of what its glob under the mount point matches, or what was
    looked for when the glob matches nothing or fails. *)
Definition piece_targets {World : Type} (sys : System World) (lib : Library)
           (p : Process) (w : World) (v : string) : list string :=
  match filepath_Glob sys w (Filepath.Join [mount p; uninstall_piece lib v]) with
  | inr (f :: fis) => map Filepath.Base (f :: fis)
  | _ => [uninstall_piece lib v]
  end.

(** What [step] returns for each name in turn, each call made in the world
    the calls before it left. *)
Fixpoint outcomes {World : Type} (step : string → M World (option error))
         (names : list string) (w : World) : list (option error) :=
  match names with
  | [] => []
  | name :: rest =>
      result (step name w) :: outcomes step rest (world_after (step name w))
  end.

(** The fields of a registration record: what is between its colons. *)
Definition record_fields (line : string) : list string :=
  Strings.Split line ":"%char.

(** ** Properties of the signature table *)

Section TableFacts.

Lemma configs_lookup_literal (arch : string) (c : config) :
  configs !! arch = Some c → (arch, c) ∈ configs_literal.
Proof. unfold configs. apply elem_of_list_to_map_2. Qed.

Lemma configs_literal_lookup (arch : string) (c : config) :
  (arch, c) ∈ configs_literal → configs !! arch = Some c.
Proof.
  unfold configs. apply elem_of_list_to_map_1.
  apply (bool_decide_unpack _). vm_compute. exact I.
Qed.

(** A property checked entry by entry holds of every entry of the map. *)
Lemma configs_forall (P : string → config → bool) :
  forallb (λ e, P e.1 e.2) configs_literal = true →
  ∀ arch c, configs !! arch = Some c → P arch c = true.
Proof.
  intros Hall arch c Hc. apply configs_lookup_literal in Hc.
  rewrite forallb_forall in Hall.
  apply (Hall (arch, c)). by apply list_elem_of_In.
Qed.

Lemma first_separating_sound g1 k1 g2 k2 i j :
  first_separating g1 k1 g2 k2 i = Some j →
  ∃ a1 m1 a2 m2,
    (i ≤ j)%nat ∧
    g1 !! (j - i)%nat = Some a1 ∧ k1 !! (j - i)%nat = Some m1 ∧
    g2 !! (j - i)%nat = Some a2 ∧ k2 !! (j - i)%nat = Some m2 ∧
    Z.land (Z.land m1 m2) (Z.lxor a1 a2) ≠ 0.
Proof.
  revert k1 g2 k2 i.
  induction g1 as [|a1 g1 IH]; intros [|m1 k1] [|a2 g2] [|m2 k2] i;
    simpl; try discriminate.
  destruct (Z.eqb_spec (Z.land (Z.land m1 m2) (Z.lxor a1 a2)) 0) as [Hz|Hnz].
  - intros Hrec. destruct (IH _ _ _ _ Hrec)
      as (b1 & n1 & b2 & n2 & Hle & H1 & H2 & H3 & H4 & Hne).
    exists b1, n1, b2, n2.
    replace (j - i)%nat with (S (j - S i)) by lia.
    simpl. repeat split; auto; lia.
  - intros [= <-]. exists a1, m1, a2, m2.
    rewrite Nat.sub_diag. simpl. repeat split; auto.
Qed.

Lemma separating_position_sound c1 c2 i :
  separating_position c1 c2 = Some i → separates c1 c2 i.
Proof.
  unfold separating_position. intros H.
  destruct (first_separating_sound _ _ _ _ _ _ H)
    as (a1 & m1 & a2 & m2 & _ & H1 & H2 & H3 & H4 & Hne).
  rewrite Nat.sub_0_r in *. by exists a1, m1, a2, m2.
Qed.

(** Two bytes that both agree with [b] under their masks agree with each
    other on the bits both masks select. *)
Lemma byte_matches_common b g1 k1 g2 k2 :
  byte_matches b g1 k1 = true → byte_matches b g2 k2 = true →
  Z.land (Z.land k1 k2) (Z.lxor g1 g2) = 0.
Proof.
  unfold byte_matches. intros H1%Z.eqb_eq H2%Z.eqb_eq.
  apply Z.bits_inj'. intros n Hn.
  apply (f_equal (λ z, Z.testbit z n)) in H1, H2.
  rewrite Z.land_spec, Z.lxor_spec, Z.bits_0 in H1, H2.
  rewrite !Z.land_spec, Z.lxor_spec, Z.bits_0.
  destruct (Z.testbit b n), (Z.testbit g1 n), (Z.testbit g2 n),
    (Z.testbit k1 n), (Z.testbit k2 n); simpl in *; congruence.
Qed.

Lemma bytes_match_lookup s gs ks i g k :
  bytes_match s gs ks = true → gs !! i = Some g → ks !! i = Some k →
  ∃ b, s !! i = Some b ∧ byte_matches b g k = true.
Proof.
  revert gs ks i.
  induction s as [|b s IH]; intros [|g0 gs] [|k0 ks] [|i];
    simpl; try discriminate.
  - intros [Hb _]%andb_true_iff [= <-] [= <-]. eauto.
  - intros [_ Hrest]%andb_true_iff Hg Hk. eauto.
Qed.

Lemma separates_disjoint c1 c2 i s :
  separates c1 c2 i →
  ¬ (sig_matches c1 s = true ∧ sig_matches c2 s = true).
Proof.
  intros (g1 & k1 & g2 & k2 & Hg1 & Hk1 & Hg2 & Hk2 & Hne) [M1 M2].
  destruct (bytes_match_lookup _ _ _ _ _ _ M1 Hg1 Hk1) as (b & Hb & B1).
  destruct (bytes_match_lookup _ _ _ _ _ _ M2 Hg2 Hk2) as (b' & Hb' & B2).
  assert (b' = b) as -> by congruence.
  apply Hne. eapply byte_matches_common; eauto.
Qed.

End TableFacts.

(** C4: the decoded magic and the decoded mask of every entry of [configs]
    have the same length. *)
Theorem configs_magic_mask_same_length (arch : string) (c : config) :
  configs !! arch = Some c →
  length (magic_bytes c) = length (mask_bytes c).
Proof.
  intros Hc. apply Nat.eqb_eq.
  revert arch c Hc.
  apply (configs_forall
           (λ _ c, length (magic_bytes c) =? length (mask_bytes c))%nat).
  vm_compute. reflexivity.
Qed.

Lemma configs_magic_mask_same_length_arm64 :
  ∃ c, configs !! "arm64" = Some c ∧
       length (magic_bytes c) = length (mask_bytes c).
Proof.
  eexists. split; [vm_compute; reflexivity|].
  apply (configs_magic_mask_same_length "arm64"). vm_compute. reflexivity.
Defined.

(** C2: any two entries of [configs] under different architecture names are
    told apart at some byte position, where both masks select a bit on which
    the magics differ; hence no byte sequence matches both entries. *)
Theorem configs_pairwise_disjoint (a1 a2 : string) (c1 c2 : config) :
  configs !! a1 = Some c1 → configs !! a2 = Some c2 → a1 ≠ a2 →
  (∃ i, separates c1 c2 i) ∧
  (∀ s, ¬ (sig_matches c1 s = true ∧ sig_matches c2 s = true)).
Proof.
  intros H1 H2 Hne.
  assert (∃ i, separates c1 c2 i) as [i Hi].
  { pose (check := λ (a1 : string) (c1 : config),
       forallb (λ e : string * config,
                  bool_decide (a1 = e.1)
                  || bool_decide (is_Some (separating_position c1 e.2)))
               configs_literal).
    assert (check a1 c1 = true) as Hrow
      by (apply (configs_forall check); [vm_compute; reflexivity | done]).
    unfold check in Hrow. rewrite forallb_forall in Hrow.
    apply configs_lookup_literal, list_elem_of_In in H2.
    specialize (Hrow _ H2). simpl in Hrow.
    apply orb_true_iff in Hrow as [Heq|Hsep].
    - apply bool_decide_eq_true in Heq. done.
    - apply bool_decide_eq_true in Hsep as [i Hi].
      exists i. by apply separating_position_sound. }
  split; [by exists i|].
  intros s. by apply (separates_disjoint c1 c2 i).
Qed.

Lemma configs_pairwise_disjoint_amd64_386 :
  ∃ c1 c2,
    configs !! "amd64" = Some c1 ∧ configs !! "386" = Some c2 ∧
    (∃ i, separates c1 c2 i) ∧
    (∀ s, ¬ (sig_matches c1 s = true ∧ sig_matches c2 s = true)).
Proof.
  do 2 eexists. split; [vm_compute; reflexivity|].
  split; [vm_compute; reflexivity|].
  apply (configs_pairwise_disjoint "amd64" "386");
    [vm_compute; reflexivity .. | ].
  intro H. discriminate H.
Defined.

(** ** The string and path functions on the examples of their documentation *)

Example Join_two : Filepath.Join ["a"; "b/c"] = "a/b/c".
Proof. reflexivity. Qed.

Example Join_dotdot : Filepath.Join ["a/b"; "../../../xyz"] = "../xyz".
Proof. reflexivity. Qed.

Example Join_empty_elements :
  Filepath.Join ["a"; ""] = "a" ∧ Filepath.Join [""; "a"] = "a"
  ∧ Filepath.Join [""; ""] = "".
Proof. repeat split. Qed.

Example Join_mount_register :
  Filepath.Join ["/proc/sys/fs/binfmt_misc"; "register"]
  = "/proc/sys/fs/binfmt_misc/register".
Proof. reflexivity. Qed.

Example Clean_cases :
  Filepath.Clean "a//c" = "a/c" ∧ Filepath.Clean "a/c/." = "a/c"
  ∧ Filepath.Clean "a/c/b/.." = "a/c" ∧ Filepath.Clean "/../a/c" = "/a/c"
  ∧ Filepath.Clean "/../a/b/../././/c" = "/a/c" ∧ Filepath.Clean "" = "."
  ∧ Filepath.Clean "../../a/.." = "../..".
Proof. repeat split. Qed.

Example Base_cases :
  Filepath.Base "/foo/bar/baz.js" = "baz.js" ∧ Filepath.Base "/foo/bar/baz/" = "baz"
  ∧ Filepath.Base "dev.txt" = "dev.txt" ∧ Filepath.Base "" = "."
  ∧ Filepath.Base "////" = "/".
Proof. repeat split. Qed.

Example Split_cases :
  Strings.Split "a,b,c" ","%char = ["a"; "b"; "c"]
  ∧ Strings.Split "arm64" ","%char = ["arm64"]
  ∧ Strings.Split "a,,b," ","%char = ["a"; ""; "b"; ""]
  ∧ Strings.Split "" ","%char = [""].
Proof. repeat split. Qed.

Example TrimPrefix_cases :
  Strings.TrimPrefix "qemu-aarch64" "qemu-" = "aarch64"
  ∧ Strings.TrimPrefix "aarch64" "qemu-" = "aarch64".
Proof. repeat split. Qed.

Example unescape_amd64 :
  unescape "\x7fELF\x02\x01\x01\x00\x00\x00\x00\x00\x00\x00\x00\x00\x02\x00\x3e\x00"
  = [127; 69; 76; 70; 2; 1; 1; 0; 0; 0; 0; 0; 0; 0; 0; 0; 2; 0; 62; 0]
  ∧ unescape "\xff\xff\xff\xff\xff\xfe\xfe\x00\xff\xff\xff\xff\xff\xff\xff\xff\xfe\xff\xff\xff"
  = [255; 255; 255; 255; 255; 254; 254; 0; 255; 255; 255; 255; 255; 255;
     255; 255; 254; 255; 255; 255].
Proof. split; vm_compute; reflexivity. Qed.

(** ** Properties of the string functions *)

Section StringFacts.

Lemma length_append (a b : string) :
  String.length (a +:+ b) = (String.length a + String.length b)%nat.
Proof. induction a as [|c a IH]; simpl; [done|]. by rewrite IH. Qed.

Lemma substring_whole (s : string) :
  String.substring 0 (String.length s) s = s.
Proof. induction s as [|c s IH]; simpl; [done|]. by rewrite IH. Qed.

Lemma substring_append_l (a b : string) :
  String.substring 0 (String.length a) (a +:+ b) = a.
Proof.
  induction a as [|c a IH]; simpl.
  - by destruct b.
  - by rewrite IH.
Qed.

Lemma substring_append_r (a b : string) :
  String.substring (String.length a) (String.length b) (a +:+ b) = b.
Proof. induction a as [|c a IH]; simpl; [apply substring_whole|done]. Qed.

(** A string is its first [n] characters followed by the rest. *)
Lemma substring_split (s : string) (n : nat) :
  (n ≤ String.length s)%nat →
  s = String.substring 0 n s
      +:+ String.substring n (String.length s - n) s.
Proof.
  revert n. induction s as [|c s IH]; intros [|n] Hn; simpl in *;
    try lia; try done.
  - by rewrite substring_whole.
  - change (String c s = String c (String.substring 0 n s
              +:+ String.substring n (String.length s - n) s)).
    f_equal. apply IH. lia.
Qed.

Lemma HasPrefix_spec (s prefix : string) :
  Strings.HasPrefix s prefix = true ↔ ∃ rest, s = prefix +:+ rest.
Proof.
  unfold Strings.HasPrefix. rewrite andb_true_iff, Nat.leb_le, String.eqb_eq.
  split.
  - intros [Hlen Hsub]. eexists.
    pose proof (substring_split s (String.length prefix) Hlen) as Hsplit.
    rewrite Hsub in Hsplit. exact Hsplit.
  - intros [rest ->]. rewrite length_append. split; [lia|].
    apply substring_append_l.
Qed.

Lemma HasSuffix_spec (s suffix : string) :
  Strings.HasSuffix s suffix = true ↔ ∃ front, s = front +:+ suffix.
Proof.
  unfold Strings.HasSuffix. rewrite andb_true_iff, Nat.leb_le, String.eqb_eq.
  split.
  - intros [Hlen Hsub].
    exists (String.substring 0 (String.length s - String.length suffix) s).
    pose proof (substring_split s (String.length s - String.length suffix))
      as Hsplit.
    replace (String.length s - (String.length s - String.length suffix))%nat
      with (String.length suffix) in Hsplit by lia.
    rewrite Hsub in Hsplit. apply Hsplit. lia.
  - intros [front ->]. rewrite length_append. split; [lia|].
    replace (String.length front + String.length suffix
             - String.length suffix)%nat
      with (String.length front) by lia.
    apply substring_append_r.
Qed.

Lemma uninstall_matches_spec (arch name : string) :
  uninstall_matches arch name = true ↔
  name = arch ∨ ∃ front, name = front +:+ "-" +:+ arch.
Proof.
  unfold uninstall_matches.
  by rewrite orb_true_iff, String.eqb_eq, HasSuffix_spec.
Qed.

Lemma uninstall_reserved_false (name : string) :
  uninstall_reserved name = false ↔
  name ≠ "register" ∧ name ≠ "status" ∧ name ≠ "WSLInterop".
Proof.
  unfold uninstall_reserved.
  rewrite !orb_false_iff, !String.eqb_neq. tauto.
Qed.

Lemma deregistration_match_spec (arch name : string) :
  uninstall_reserved name = false ∧ uninstall_matches arch name = true ↔
  deregistration_match arch name.
Proof.
  unfold deregistration_match.
  rewrite uninstall_reserved_false, uninstall_matches_spec. tauto.
Qed.

Lemma status_reserved_spec (name : string) :
  status_reserved name = false ↔ name ≠ "register" ∧ name ≠ "status".
Proof.
  unfold status_reserved.
  by rewrite orb_false_iff, !String.eqb_neq.
Qed.

End StringFacts.

(** ** Properties of [uninstall] *)

Section UninstallFacts.

Context {World : Type} (sys : System World) (lib : Library) (p : Process).

Lemma uninstall_loop_passed_over arch fis w :
  Forall (passed_over arch) fis →
  uninstall_loop sys p arch fis w = (Some (Errorf "not found" []), w, []).
Proof.
  induction 1 as [|name fis [Hres|Hno] _ IH]; simpl; [done|..].
  - by rewrite Hres.
  - rewrite Hno. by destruct (uninstall_reserved name).
Qed.

Lemma uninstall_loop_first arch before name after w :
  Forall (passed_over arch) before →
  uninstall_reserved name = false → uninstall_matches arch name = true →
  uninstall_loop sys p arch (before ++ name :: after) w
  = perform (EvWriteFile (Filepath.Join [mount p; name]) "-1")
      (λ w, os_WriteFile sys w (Filepath.Join [mount p; name]) "-1") w.
Proof.
  intros Hbefore Hres Hmatch.
  induction Hbefore as [|x before [Hx|Hx] _ IH]; simpl.
  - by rewrite Hres, Hmatch.
  - by rewrite Hx.
  - rewrite Hx. by destruct (uninstall_reserved x).
Qed.

(** A listing has no entry to take, or a first one. *)
Lemma listing_first_match arch (fis : list string) :
  Forall (passed_over arch) fis ∨
  ∃ before name after,
    fis = before ++ name :: after ∧ Forall (passed_over arch) before ∧
    uninstall_reserved name = false ∧ uninstall_matches arch name = true.
Proof.
  induction fis as [|x fis [IH|(before & name & after & -> & Hb & Hr & Hm)]].
  - left. constructor.
  - destruct (uninstall_reserved x) eqn:Hr;
      [left; constructor; [by left|done]|].
    destruct (uninstall_matches arch x) eqn:Hm;
      [|left; constructor; [by right|done]].
    right. exists [], x, fis. repeat split; auto.
  - destruct (uninstall_reserved x) eqn:Hrx.
    + right. exists (x :: before), name, after.
      repeat split; auto. constructor; [by left|done].
    + destruct (uninstall_matches arch x) eqn:Hmx.
      * right. exists [], x, (before ++ name :: after). repeat split; auto.
      * right. exists (x :: before), name, after.
        repeat split; auto. constructor; [by right|done].
Qed.

Lemma passed_over_spec (arch name : string) :
  passed_over arch name ↔ ¬ deregistration_match arch name.
Proof.
  rewrite <- deregistration_match_spec. unfold passed_over.
  destruct (uninstall_reserved name), (uninstall_matches arch name);
    intuition congruence.
Qed.

Lemma passed_over_all (arch : string) (names : list string) :
  (∀ x, In x names → ¬ deregistration_match arch x) →
  Forall (passed_over arch) names.
Proof.
  intros Hall. apply Forall_forall. intros x Hx%list_elem_of_In.
  by apply passed_over_spec, Hall.
Qed.

(** C5: [uninstall] takes an entry of the listing for the target exactly
    when the entry is none of [register], [status], [WSLInterop] and its
    name is the target or ends with [-] and the target.  It writes at most
    once.  When the listing has such an entry, it writes [-1] to the first
    one, in the order of the listing, and returns what that write returns:
    the directory read and that one write are all it does.  When the
    listing has none, it writes nothing. *)
Theorem uninstall_first_match (arch : string) (w : World) (fis : list string) :
  os_ReadDir sys w (mount p) = inr fis →
  (∀ name, uninstall_reserved name = false ∧ uninstall_matches arch name = true
           ↔ name ≠ "register" ∧ name ≠ "status" ∧ name ≠ "WSLInterop" ∧
             (name = arch ∨ ∃ front, name = front +:+ "-" +:+ arch)) ∧
  (length (List.filter is_write (trace (uninstall sys p arch w))) ≤ 1)%nat ∧
  (∀ before name after,
     fis = before ++ name :: after →
     (∀ x, In x before → ¬ deregistration_match arch x) →
     deregistration_match arch name →
     let path := Filepath.Join [mount p; name] in
     uninstall sys p arch w
     = ((os_WriteFile sys w path "-1").2, (os_WriteFile sys w path "-1").1,
        [EvReadDir (mount p); EvWriteFile path "-1"])) ∧
  ((∀ x, In x fis → ¬ deregistration_match arch x) →
   List.filter is_write (trace (uninstall sys p arch w)) = []).
Proof.
  intros Hdir. split; [apply deregistration_match_spec|].
  assert (∀ before name after,
     fis = before ++ name :: after →
     (∀ x, In x before → ¬ deregistration_match arch x) →
     deregistration_match arch name →
     uninstall sys p arch w
     = ((os_WriteFile sys w (Filepath.Join [mount p; name]) "-1").2,
        (os_WriteFile sys w (Filepath.Join [mount p; name]) "-1").1,
        [EvReadDir (mount p);
         EvWriteFile (Filepath.Join [mount p; name]) "-1"])) as Hfirst.
  { intros before name after -> Hbefore [Hr Hm]%deregistration_match_spec.
    unfold uninstall, bind, observe. rewrite Hdir.
    rewrite (uninstall_loop_first arch before name after w
               (passed_over_all arch before Hbefore) Hr Hm).
    unfold perform. by destruct (os_WriteFile _ _ _ _). }
  assert ((∀ x, In x fis → ¬ deregistration_match arch x) →
          uninstall sys p arch w
          = (Some (Errorf "not found" []), w, [EvReadDir (mount p)])) as Hnone.
  { intros Hall. unfold uninstall, bind, observe. rewrite Hdir.
    by rewrite (uninstall_loop_passed_over arch fis w
                  (passed_over_all arch fis Hall)). }
  split; [|split; [exact Hfirst|by intros Hall; rewrite (Hnone Hall)]].
  destruct (listing_first_match arch fis)
    as [Hall|(before & name & after & Heq & Hb & Hr & Hm)].
  - rewrite Hnone; [simpl; lia|].
    intros x Hx. apply passed_over_spec.
    rewrite Forall_forall in Hall. by apply Hall, list_elem_of_In.
  - rewrite (Hfirst before name after Heq).
    + simpl. lia.
    + intros x Hx. apply passed_over_spec.
      rewrite Forall_forall in Hb. by apply Hb, list_elem_of_In.
    + by apply deregistration_match_spec.
Qed.

(** C8: when no entry of the listing is taken for the target, [uninstall]
    returns the error [not found], writes nothing and leaves the world as
    it was, so that [printStatus] gives afterwards what it gave before. *)
Theorem uninstall_not_found (arch : string) (w : World) (fis : list string) :
  os_ReadDir sys w (mount p) = inr fis →
  Forall (passed_over arch) fis →
  result (uninstall sys p arch w) = Some (Errorf "not found" []) ∧
  world_after (uninstall sys p arch w) = w ∧
  trace (uninstall sys p arch w) = [EvReadDir (mount p)] ∧
  printStatus sys lib p (world_after (uninstall sys p arch w))
  = printStatus sys lib p w.
Proof.
  intros Hdir Hnone.
  assert (uninstall sys p arch w
          = (Some (Errorf "not found" []), w, [EvReadDir (mount p)])) as ->.
  { unfold uninstall, bind, observe. rewrite Hdir.
    by rewrite uninstall_loop_passed_over. }
  done.
Qed.

End UninstallFacts.

(** ** Properties of [install] *)

Section InstallFacts.

Context {World : Type} (sys : System World) (p : Process).

Lemma getBinaryNames_separator (cfg : config) :
  Strings.ContainsRune (Getenv p "QEMU_BINARY_PREFIX") Filepath.PathSeparator
  = true →
  getBinaryNames p cfg
  = inl (New "binary prefix must not contain path separator (Hint: set $QEMU_BINARY_PATH to specify the directory)").
Proof.
  intros Hsep. unfold getBinaryNames.
  destruct (Getenv p "QEMU_BINARY_PREFIX") as [|c prefix]; [done|].
  simpl in *. by rewrite Hsep.
Qed.

Lemma getBinaryNames_no_separator (cfg : config) :
  Strings.ContainsRune (Getenv p "QEMU_BINARY_PREFIX") Filepath.PathSeparator
  = false →
  let directory :=
    if String.eqb (Getenv p "QEMU_BINARY_PATH") "" then "/usr/bin"
    else Getenv p "QEMU_BINARY_PATH" in
  let name := Getenv p "QEMU_BINARY_PREFIX" +:+ binary cfg in
  getBinaryNames p cfg = inr (name, Filepath.Join [directory; name]).
Proof.
  intros Hsep. unfold getBinaryNames.
  destruct (String.eqb (Getenv p "QEMU_BINARY_PATH") ""); simpl;
    (destruct (Getenv p "QEMU_BINARY_PREFIX") as [|c prefix]; [done|]);
    simpl in *; by rewrite Hsep.
Qed.

Lemma install_flags_spec :
  install_flags p
  = if String.eqb (Getenv p "QEMU_PRESERVE_ARGV0") "" then "CF" else "CFP".
Proof.
  unfold install_flags.
  by destruct (String.eqb (Getenv p "QEMU_PRESERVE_ARGV0") "").
Qed.

(** What [install] does for a supported architecture whose binary names
    resolve. *)
Lemma install_resolved arch cfg name path w :
  configs !! arch = Some cfg →
  getBinaryNames p cfg = inr (name, path) →
  let register := Filepath.Join [mount p; "register"] in
  let line :=
    registration_line name (magic cfg) (mask cfg) path (install_flags p) in
  install sys p arch w
  = match os_OpenFile sys w register with
    | Some err => (Some (install_open_error register err), w,
                   [EvOpenFile register])
    | None =>
        (match (file_Write sys w register line).2 with
         | Some err => Some (install_write_error name path register err)
         | None => None
         end,
         (file_Write sys w register line).1,
         [EvOpenFile register; EvWrite register line; EvClose register])
    end.
Proof.
  intros Hcfg Hnames. unfold install, bind, observe, perform, emit, ret.
  rewrite Hcfg. simpl.
  destruct (os_OpenFile sys w _); [done|].
  rewrite Hnames.
  by destruct (file_Write sys w _ _) as [w' [err|]].
Qed.

(** C3, amended: for a supported architecture and a prefix without a
    separator, [install] writes the one record
    [:<name>:M:0:<magic>:<mask>:<interpreterPath>:<flags>] to the register
    file once that file opens; it never writes anything else, nor more
    than once.  The offset field is [0]; the flags are [CF] when
    [QEMU_PRESERVE_ARGV0] is empty and [CFP] otherwise. *)
Theorem install_registration_record (arch : string) (cfg : config) (w : World) :
  configs !! arch = Some cfg →
  Strings.ContainsRune (Getenv p "QEMU_BINARY_PREFIX") Filepath.PathSeparator
  = false →
  let register := Filepath.Join [mount p; "register"] in
  let directory :=
    if String.eqb (Getenv p "QEMU_BINARY_PATH") "" then "/usr/bin"
    else Getenv p "QEMU_BINARY_PATH" in
  let name := Getenv p "QEMU_BINARY_PREFIX" +:+ binary cfg in
  let interpreterPath := Filepath.Join [directory; name] in
  let flags :=
    if String.eqb (Getenv p "QEMU_PRESERVE_ARGV0") "" then "CF" else "CFP" in
  let record :=
    ":" +:+ name +:+ ":M:0:" +:+ magic cfg +:+ ":" +:+ mask cfg +:+ ":"
    +:+ interpreterPath +:+ ":" +:+ flags in
  (os_OpenFile sys w register = None →
   List.filter is_write (trace (install sys p arch w))
   = [EvWrite register record]) ∧
  (∀ ev, In ev (List.filter is_write (trace (install sys p arch w))) →
         ev = EvWrite register record) ∧
  (length (List.filter is_write (trace (install sys p arch w))) ≤ 1)%nat.
Proof.
  intros Hcfg Hsep register directory name interpreterPath flags record.
  pose proof (getBinaryNames_no_separator cfg Hsep) as Hnames.
  rewrite (install_resolved _ _ _ _ w Hcfg Hnames).
  fold register directory name interpreterPath.
  rewrite install_flags_spec. fold flags.
  change (registration_line name (magic cfg) (mask cfg) interpreterPath flags)
    with record.
  destruct (os_OpenFile sys w register) as [err|]; simpl.
  - repeat split; [done|intros ev []|lia].
  - repeat split; [|lia]. by intros ev [<-|[]].
Qed.

(** C6: with a path separator in [QEMU_BINARY_PREFIX], [getBinaryNames]
    returns the configuration error, and [install] returns an error
    without writing anything and without changing the world; once the
    register file has opened that error is the configuration error. *)
Theorem install_prefix_separator (arch : string) (w : World) :
  Strings.ContainsRune (Getenv p "QEMU_BINARY_PREFIX") Filepath.PathSeparator
  = true →
  let config_error :=
    New "binary prefix must not contain path separator (Hint: set $QEMU_BINARY_PATH to specify the directory)" in
  (∀ cfg, getBinaryNames p cfg = inl config_error) ∧
  is_Some (result (install sys p arch w)) ∧
  List.filter is_write (trace (install sys p arch w)) = [] ∧
  world_after (install sys p arch w) = w ∧
  (is_Some (configs !! arch) →
   os_OpenFile sys w (Filepath.Join [mount p; "register"]) = None →
   result (install sys p arch w) = Some config_error).
Proof.
  intros Hsep config_error.
  split; [intros cfg; by apply getBinaryNames_separator|].
  unfold install, bind, observe, perform, emit, ret.
  destruct (configs !! arch) as [cfg|] eqn:Hcfg; simpl.
  - rewrite (getBinaryNames_separator cfg Hsep).
    destruct (os_OpenFile sys w _) as [err|]; simpl;
      repeat split; eauto; done.
  - repeat split; eauto. by intros [? ?].
Qed.

End InstallFacts.

(** ** Properties of [printStatus] *)

Section StatusFacts.

Context {World : Type} (sys : System World) (lib : Library) (p : Process).

Lemma printStatus_loop_readable fis emulators w :
  (∀ name, name ∈ fis → status_reserved name = false →
           ∃ dt, entry_content sys p w name = inr dt) →
  ∃ reads,
    printStatus_loop sys p fis emulators w
    = (inr (emulators ++ List.filter (listed sys p w) fis), w, reads)
    ∧ Forall is_ReadFile reads.
Proof.
  revert emulators.
  induction fis as [|f fis IH]; intros emulators Hread; simpl.
  - exists []. by rewrite app_nil_r.
  - assert (∀ name, name ∈ fis → status_reserved name = false →
                    ∃ dt, entry_content sys p w name = inr dt) as Hrest
      by (intros name Hin; apply Hread; by right).
    unfold listed at 1.
    destruct (status_reserved f) eqn:Hres; simpl.
    + apply (IH _ Hrest).
    + destruct (Hread f) as [dt Hdt]; [by left|done|].
      unfold bind, observe. fold (entry_content sys p w f). rewrite Hdt.
      destruct (Strings.HasPrefix dt "enabled"); cbn beta iota.
      * destruct (IH (emulators ++ [f]) Hrest) as (reads & -> & Hreads).
        exists (EvReadFile (Filepath.Join [mount p; f]) :: reads).
        rewrite <- app_assoc. split; [done|].
        constructor; [by eexists|done].
      * destruct (IH emulators Hrest) as (reads & -> & Hreads).
        exists (EvReadFile (Filepath.Join [mount p; f]) :: reads).
        split; [done|]. constructor; [by eexists|done].
Qed.

Lemma listed_spec (w : World) (name : string) :
  listed sys p w name = true ↔
  name ≠ "register" ∧ name ≠ "status" ∧
  ∃ rest, entry_content sys p w name = inr ("enabled" +:+ rest).
Proof.
  unfold listed. rewrite andb_true_iff, negb_true_iff, status_reserved_spec.
  destruct (entry_content sys p w name) as [err|dt].
  - split; [by intros [_ ?]|]. by intros (_ & _ & rest & ?).
  - rewrite HasPrefix_spec. split.
    + intros [[? ?] [rest ->]]. eauto.
    + intros (? & ? & rest & [= ->]). eauto.
Qed.

(** C9: when the mount point lists and its entries other than [register]
    and [status] read, [printStatus] prints one snapshot, whose emulators
    are the names of the listing, in its order, that are neither
    [register] nor [status] and whose content begins with [enabled]. *)
Theorem printStatus_emulators (w : World) (fis : list string) :
  os_ReadDir sys w (mount p) = inr fis →
  (∀ name, name ∈ fis → status_reserved name = false →
           ∃ dt, entry_content sys p w name = inr dt) →
  ∃ reads emulators,
    printStatus sys lib p w
    = (None, w,
       EvReadDir (mount p) :: reads ++
       [EvSupportedPlatforms;
        EvPrint {| Supported :=
                     formatPlatforms lib (archutil_SupportedPlatforms sys w);
                   Emulators := emulators |}]) ∧
    Forall is_ReadFile reads ∧
    emulators = List.filter (listed sys p w) fis ∧
    ∀ name, In name emulators ↔
            In name fis ∧ name ≠ "register" ∧ name ≠ "status" ∧
            ∃ rest, entry_content sys p w name = inr ("enabled" +:+ rest).
Proof.
  intros Hdir Hread.
  destruct (printStatus_loop_readable fis [] w Hread) as (reads & Hloop & Hreads).
  exists reads, (List.filter (listed sys p w) fis).
  split; [|split; [done|split; [done|]]].
  - unfold printStatus, bind, observe, SupportedPlatforms, emit, ret.
    rewrite Hdir, Hloop. by simpl.
  - intros name. rewrite filter_In, listed_spec. tauto.
Qed.

End StatusFacts.

(** ** Properties of [allArch] *)

Section AllArchFacts.

Context {World : Type} (sys : System World) (lib : Library) (p : Process).

Lemma allArch_supported_spec pps m (w : World) :
  ∃ logs,
    allArch_supported lib pps m w
    = (list_to_set (omap (parsed_arch lib) pps) ∪ m, w, logs).
Proof.
  revert m. induction pps as [|pp pps IH]; intros m; simpl.
  - exists []. unfold ret. by rewrite (left_id_L ∅ (∪)).
  - unfold parsed_arch at 1.
    destruct (platforms_Parse lib pp) as [err|pl].
    + destruct (IH m) as [logs Hlogs].
      unfold bind, emit. rewrite Hlogs. eauto.
    + destruct (IH ({[Architecture pl]} ∪ m)) as [logs ->].
      exists logs. simpl.
      by rewrite (assoc_L (∪)), (comm_L (∪) _ {[Architecture pl]}).
Qed.

Lemma allArch_loop_spec m names out w :
  ∃ stats,
    allArch_loop sys p m names out w
    = (out ++ List.filter (allArch_keeps sys p m w) names, w, stats).
Proof.
  revert out. induction names as [|name names IH]; intros out; simpl.
  - exists []. by rewrite app_nil_r.
  - unfold allArch_keeps at 1, binary_found.
    destruct (decide (name ∈ m)) as [Hin|Hout].
    + rewrite bool_decide_eq_false_2 by (intros ?; done). apply IH.
    + rewrite bool_decide_eq_true_2 by done. simpl.
      destruct (getBinaryNames p _) as [err|[base fullPath]].
      * destruct (IH (out ++ [name])) as [stats ->].
        exists stats. by rewrite <- app_assoc.
      * unfold bind, observe.
        destruct (os_Stat sys w fullPath) as [err|].
        -- destruct (IH out) as [stats ->]. eauto.
        -- destruct (IH (out ++ [name])) as [stats ->].
           rewrite <- app_assoc. eauto.
Qed.

Lemma allArch_result w :
  result (allArch sys lib p w)
  = List.filter (allArch_keeps sys p (supported_archs sys lib w) w) (range_configs p).
Proof.
  unfold allArch, bind, SupportedPlatforms, observe.
  destruct (allArch_supported_spec
              (formatPlatforms lib (archutil_SupportedPlatforms sys w)) ∅ w)
    as [logs ->].
  rewrite (right_id_L ∅ (∪)). fold (supported_archs sys lib w).
  by destruct (allArch_loop_spec (supported_archs sys lib w) (range_configs p) [] w)
    as [stats ->].
Qed.

(** What [allArch] returns as it is written: the architectures of
    [configs] that are not among the supported ones and whose binary is
    found on disk or does not resolve.  The comment above the function says
    more: that an architecture whose binary is not there is added as well. *)
Theorem allArch_selects (w : World) (name : string) :
  (range_configs p ≡ₚ (map_to_list configs).*1) →
  In name (result (allArch sys lib p w)) ↔
  ∃ cfg, configs !! name = Some cfg ∧
         (name ∉ supported_archs sys lib w) ∧
         match getBinaryNames p cfg with
         | inl _ => True
         | inr (_, fullPath) => os_Stat sys w fullPath = None
         end.
Proof.
  intros Horder.
  rewrite allArch_result, filter_In, <- list_elem_of_In, Horder.
  rewrite list_elem_of_fmap. unfold allArch_keeps, binary_found.
  rewrite andb_true_iff, bool_decide_eq_true. split.
  - intros [[[name' cfg] [-> Hin%elem_of_map_to_list]] [Hout Hfound]].
    simpl in *. rewrite Hin in Hfound. simpl in Hfound.
    exists cfg. repeat split; [done..|].
    destruct (getBinaryNames p cfg) as [err|[base fullPath]]; [done|].
    by destruct (os_Stat sys w fullPath).
  - intros (cfg & Hcfg & Hout & Hfound). rewrite Hcfg. simpl.
    split; [exists (name, cfg); split; [done|by apply elem_of_map_to_list]|].
    split; [done|].
    destruct (getBinaryNames p cfg) as [err|[base fullPath]]; [done|].
    by rewrite Hfound.
Qed.

End AllArchFacts.

(** ** Properties of [run] and [main] *)

Section RunFacts.

Context {World : Type} (sys : System World) (lib : Library).

(** In version mode [run] logs the versions and does nothing else. *)
Lemma run_version (p : Process) (w : World) :
  flVersion p = true →
  result (run sys lib p w) = None ∧ world_after (run sys lib p w) = w ∧
  ∃ args, trace (run sys lib p w) = [EvLog "binfmt/%s qemu/%s go/%s" args].
Proof.
  intros Hversion. unfold run, bind, emit, ret. rewrite Hversion. simpl.
  repeat split. eauto.
Qed.

(** C7: when the status file is not there and the mount fails, [run]
    (which reaches the mount unless it only displays the version) returns
    the error of the mount wrapped with the mount point, after the stat and
    the mount and nothing else: no uninstall, install or status. *)
Theorem run_mount_failure (p : Process) (w w' : World) (e : Z) :
  flVersion p = false →
  is_Some (os_Stat sys w (Filepath.Join [mount p; "status"])) →
  syscall_Mount sys w "binfmt_misc" (mount p) "binfmt_misc" = (w', Some e) →
  run sys lib p w
  = (Some (Wrapf (Errno e) "cannot mount binfmt_misc filesystem at %s"
             [ArgString (mount p)]),
     w',
     [EvStat (Filepath.Join [mount p; "status"]);
      EvMount "binfmt_misc" (mount p) "binfmt_misc"]).
Proof.
  intros Hversion [err Hstat] Hmount.
  unfold run, bind, observe, perform, ret.
  by rewrite Hversion, Hstat, Hmount.
Qed.

(** C10: [main] ends with status 0 whatever [run] returns; an error of
    [run] is logged after everything [run] did, and that is all. *)
Theorem main_exit_status (p : Process) (w : World) :
  result (main sys lib (Parsed p) w) = 0 ∧
  world_after (main sys lib (Parsed p) w) = world_after (run sys lib p w) ∧
  ∀ err, result (run sys lib p w) = Some err →
         trace (main sys lib (Parsed p) w)
         = trace (run sys lib p w) ++ [EvLog "error: %+v" [ArgError err]].
Proof.
  unfold main, bind, emit, ret.
  destruct (run sys lib p w) as [[[err|] w1] t1]; simpl.
  - repeat split. by intros ? [= ->].
  - repeat split. by intros ? [=].
Qed.

End RunFacts.

(** ** The theorems on the small system *)

Lemma uninstall_first_match_aarch64 :
  let p := Sim.process "" "aarch64" [] in
  let w := Sim.w_mounted in
  os_ReadDir Sim.sys w (mount p)
  = inr ([] ++ "qemu-aarch64" :: ["qemu-riscv64"; "register"; "status"]) ∧
  (∀ x, In x [] → ¬ deregistration_match "aarch64" x) ∧
  deregistration_match "aarch64" "qemu-aarch64" ∧
  result (uninstall Sim.sys p "aarch64" w) = None ∧
  trace (uninstall Sim.sys p "aarch64" w)
  = [EvReadDir "/proc/sys/fs/binfmt_misc";
     EvWriteFile "/proc/sys/fs/binfmt_misc/qemu-aarch64" "-1"] ∧
  (Sim.entries (world_after (uninstall Sim.sys p "aarch64" w))).*1
  = ["qemu-riscv64"; "register"; "status"].
Proof.
  intros p w.
  assert (deregistration_match "aarch64" "qemu-aarch64") as Hmatch.
  { repeat split; try (intros H; discriminate H).
    right. by exists "qemu". }
  assert (∀ x, In x [] → ¬ deregistration_match "aarch64" x) as Hbefore
    by (intros x []).
  split; [reflexivity|]. split; [exact Hbefore|]. split; [exact Hmatch|].
  destruct (uninstall_first_match Sim.sys p "aarch64" w
              ([] ++ "qemu-aarch64" :: ["qemu-riscv64"; "register"; "status"])
              eq_refl) as (_ & _ & Hfirst & _).
  rewrite (Hfirst [] "qemu-aarch64" ["qemu-riscv64"; "register"; "status"]
             eq_refl Hbefore Hmatch).
  repeat split; vm_compute; reflexivity.
Defined.

Lemma uninstall_not_found_nothing :
  let p := Sim.process "" "nothing" [] in
  let w := Sim.w_mounted in
  let fis := ["qemu-aarch64"; "qemu-riscv64"; "register"; "status"] in
  os_ReadDir Sim.sys w (mount p) = inr fis ∧
  Forall (passed_over "nothing") fis ∧
  result (uninstall Sim.sys p "nothing" w) = Some (Errorf "not found" []) ∧
  world_after (uninstall Sim.sys p "nothing" w) = w ∧
  trace (uninstall Sim.sys p "nothing" w) = [EvReadDir (mount p)] ∧
  printStatus Sim.sys Sim.lib p (world_after (uninstall Sim.sys p "nothing" w))
  = printStatus Sim.sys Sim.lib p w.
Proof.
  intros p w fis.
  assert (Forall (passed_over "nothing") fis) as Hnone
    by (repeat constructor; first [left; reflexivity | right; reflexivity]).
  split; [reflexivity|]. split; [exact Hnone|].
  apply (uninstall_not_found Sim.sys Sim.lib p "nothing" w fis);
    [reflexivity | exact Hnone].
Defined.

Lemma install_registration_record_arm64 :
  let p := Sim.process "arm64" ""
             [("QEMU_BINARY_PREFIX", "buildkit-"); ("QEMU_PRESERVE_ARGV0", "1")] in
  let w := Sim.w_mounted in
  ∃ cfg,
    configs !! "arm64" = Some cfg ∧
    Strings.ContainsRune (Getenv p "QEMU_BINARY_PREFIX") Filepath.PathSeparator
    = false ∧
    os_OpenFile Sim.sys w "/proc/sys/fs/binfmt_misc/register" = None ∧
    List.filter is_write (trace (install Sim.sys p "arm64" w))
    = [EvWrite "/proc/sys/fs/binfmt_misc/register"
         ":buildkit-qemu-aarch64:M:0:\x7fELF\x02\x01\x01\x00\x00\x00\x00\x00\x00\x00\x00\x00\x02\x00\xb7\x00:\xff\xff\xff\xff\xff\xff\xff\x00\xff\xff\xff\xff\xff\xff\xff\xff\xfe\xff\xff\xff:/usr/bin/buildkit-qemu-aarch64:CFP"].
Proof.
  intros p w.
  pose (cfg := Config "qemu-aarch64"
     "\x7fELF\x02\x01\x01\x00\x00\x00\x00\x00\x00\x00\x00\x00\x02\x00\xb7\x00"
     "\xff\xff\xff\xff\xff\xff\xff\x00\xff\xff\xff\xff\xff\xff\xff\xff\xfe\xff\xff\xff").
  exists cfg.
  split; [vm_compute; reflexivity|].
  split; [vm_compute; reflexivity|].
  split; [vm_compute; reflexivity|].
  refine (proj1 (install_registration_record Sim.sys p "arm64" cfg w _ _) _);
    vm_compute; reflexivity.
Defined.

Lemma install_prefix_separator_dotdot :
  let p := Sim.process "arm64" "" [("QEMU_BINARY_PREFIX", "../")] in
  let w := Sim.w_mounted in
  let config_error :=
    New "binary prefix must not contain path separator (Hint: set $QEMU_BINARY_PATH to specify the directory)" in
  Strings.ContainsRune (Getenv p "QEMU_BINARY_PREFIX") Filepath.PathSeparator
  = true ∧
  (∀ cfg, getBinaryNames p cfg = inl config_error) ∧
  is_Some (result (install Sim.sys p "arm64" w)) ∧
  List.filter is_write (trace (install Sim.sys p "arm64" w)) = [] ∧
  world_after (install Sim.sys p "arm64" w) = w ∧
  (is_Some (configs !! "arm64") →
   os_OpenFile Sim.sys w (Filepath.Join [mount p; "register"]) = None →
   result (install Sim.sys p "arm64" w) = Some config_error).
Proof.
  intros p w config_error. split; [vm_compute; reflexivity|].
  apply (install_prefix_separator Sim.sys p "arm64" w).
  vm_compute. reflexivity.
Defined.

Lemma printStatus_emulators_mounted :
  let p := Sim.process "" "" [] in
  let w := Sim.w_mounted in
  let fis := ["qemu-aarch64"; "qemu-riscv64"; "register"; "status"] in
  os_ReadDir Sim.sys w (mount p) = inr fis ∧
  (∀ name, name ∈ fis → status_reserved name = false →
           ∃ dt, entry_content Sim.sys p w name = inr dt) ∧
  ∃ reads emulators,
    printStatus Sim.sys Sim.lib p w
    = (None, w,
       EvReadDir (mount p) :: reads ++
       [EvSupportedPlatforms;
        EvPrint {| Supported :=
                     formatPlatforms Sim.lib
                       (archutil_SupportedPlatforms Sim.sys w);
                   Emulators := emulators |}]) ∧
    Forall is_ReadFile reads ∧
    emulators = List.filter (listed Sim.sys p w) fis ∧
    ∀ name, In name emulators ↔
            In name fis ∧ name ≠ "register" ∧ name ≠ "status" ∧
            ∃ rest, entry_content Sim.sys p w name = inr ("enabled" +:+ rest).
Proof.
  intros p w fis.
  assert (∀ name, name ∈ fis → status_reserved name = false →
                  ∃ dt, entry_content Sim.sys p w name = inr dt) as Hread.
  { intros name Hin _.
    repeat (apply elem_of_cons in Hin as [->|Hin]; [eexists; reflexivity|]).
    by apply elem_of_nil in Hin. }
  split; [reflexivity|]. split; [exact Hread|].
  apply (printStatus_emulators Sim.sys Sim.lib p w fis); [reflexivity|exact Hread].
Defined.

(** On the mounted system the emulators are exactly [qemu-aarch64]. *)
Example listed_on_mounted :
  List.filter (listed Sim.sys (Sim.process "" "" []) Sim.w_mounted)
              ["qemu-aarch64"; "qemu-riscv64"; "register"; "status"]
  = ["qemu-aarch64"].
Proof. vm_compute. reflexivity. Qed.

Lemma allArch_selects_arm64 :
  let p := Sim.process "all" "" [] in
  let w := Sim.w_mounted in
  (range_configs p ≡ₚ (map_to_list configs).*1) ∧
  (In "arm64" (result (allArch Sim.sys Sim.lib p w)) ↔
   ∃ cfg, configs !! "arm64" = Some cfg ∧
          ("arm64" ∉ supported_archs Sim.sys Sim.lib w) ∧
          match getBinaryNames p cfg with
          | inl _ => True
          | inr (_, fullPath) => os_Stat Sim.sys w fullPath = None
          end).
Proof.
  intros p w. split; [reflexivity|].
  apply (allArch_selects Sim.sys Sim.lib p w "arm64"). reflexivity.
Defined.

(** C1, which the code does not keep: on a host that supports only
    [linux/amd64], with no prefix set and only the emulators of arm64 and arm
    on disk, [s390x] is in [configs], is not a supported architecture, its
    binary resolves to [/usr/bin/qemu-s390x], which is not there, and
    [allArch] leaves it out: it returns [arm64] and [arm] only.  The
    comment above [allArch] and its branch for a binary that does not
    resolve both add such an architecture, for [install] to report. *)
Theorem allArch_drops_missing_binary :
  let p := Sim.process "all" "" [] in
  let w := Sim.w_mounted in
  ∃ cfg,
    configs !! "s390x" = Some cfg ∧
    ("s390x" ∉ supported_archs Sim.sys Sim.lib w) ∧
    getBinaryNames p cfg = inr ("qemu-s390x", "/usr/bin/qemu-s390x") ∧
    is_Some (os_Stat Sim.sys w "/usr/bin/qemu-s390x") ∧
    ¬ In "s390x" (result (allArch Sim.sys Sim.lib p w)) ∧
    ∀ name, In name (result (allArch Sim.sys Sim.lib p w)) ↔
            name = "arm64" ∨ name = "arm".
Proof.
  intros p w. eexists.
  split; [vm_compute; reflexivity|].
  split; [apply (bool_decide_unpack _); vm_compute; exact I|].
  split; [vm_compute; reflexivity|].
  split; [eexists; vm_compute; reflexivity|].
  assert (result (allArch Sim.sys Sim.lib p w) = ["arm64"; "arm"]) as ->
    by (vm_compute; reflexivity).
  split.
  - intros [Heq|[Heq|[]]]; discriminate Heq.
  - intros name. simpl. split.
    + intros [<-|[<-|[]]]; auto.
    + intros [->| ->]; auto.
Qed.

(** C3 as it is stated fails: [arm64] is in [configs], and [install] writes
    no record for it when the prefix is [../], nor when the register file is
    not there to open. *)
Lemma install_writes_no_record :
  is_Some (configs !! "arm64") ∧
  List.filter is_write
    (trace (install Sim.sys
              (Sim.process "arm64" "" [("QEMU_BINARY_PREFIX", "../")])
              "arm64" Sim.w_mounted)) = [] ∧
  List.filter is_write
    (trace (install Sim.sys (Sim.process "arm64" "" []) "arm64"
              Sim.w_unmountable)) = [].
Proof.
  split; [eexists; vm_compute; reflexivity|].
  split; vm_compute; reflexivity.
Qed.

Lemma run_mount_failure_unmountable :
  let p := Sim.process "all" "" [] in
  let w := Sim.w_unmountable in
  flVersion p = false ∧
  is_Some (os_Stat Sim.sys w (Filepath.Join [mount p; "status"])) ∧
  syscall_Mount Sim.sys w "binfmt_misc" (mount p) "binfmt_misc"
  = (w, Some EPERM) ∧
  run Sim.sys Sim.lib p w
  = (Some (Wrapf (Errno EPERM) "cannot mount binfmt_misc filesystem at %s"
             [ArgString (mount p)]),
     w,
     [EvStat (Filepath.Join [mount p; "status"]);
      EvMount "binfmt_misc" (mount p) "binfmt_misc"]).
Proof.
  intros p w.
  assert (is_Some (os_Stat Sim.sys w (Filepath.Join [mount p; "status"])))
    as Hstat by (eexists; vm_compute; reflexivity).
  split; [reflexivity|]. split; [exact Hstat|]. split; [reflexivity|].
  apply (run_mount_failure Sim.sys Sim.lib p w w EPERM);
    [reflexivity | exact Hstat | reflexivity].
Defined.

Lemma main_exit_status_unmountable :
  let p := Sim.process "all" "" [] in
  let w := Sim.w_unmountable in
  let err := Wrapf (Errno EPERM) "cannot mount binfmt_misc filesystem at %s"
               [ArgString (mount p)] in
  result (run Sim.sys Sim.lib p w) = Some err ∧
  result (main Sim.sys Sim.lib (Parsed p) w) = 0 ∧
  trace (main Sim.sys Sim.lib (Parsed p) w)
  = trace (run Sim.sys Sim.lib p w) ++ [EvLog "error: %+v" [ArgError err]].
Proof.
  intros p w err.
  assert (result (run Sim.sys Sim.lib p w) = Some err) as Hrun
    by (vm_compute; reflexivity).
  destruct (main_exit_status Sim.sys Sim.lib p w) as (Hexit & _ & Hlog).
  split; [exact Hrun|]. split; [exact Hexit|]. exact (Hlog err Hrun).
Defined.

(** A whole run: one uninstall, an install that fails, one that succeeds,
    and the snapshot. *)
Example run_batch :
  trace (run Sim.sys Sim.lib (Sim.process "foo,arm" "riscv64" []) Sim.w_mounted)
  = [EvStat "/proc/sys/fs/binfmt_misc/status";
     EvGlob "/proc/sys/fs/binfmt_misc/riscv64";
     EvReadDir "/proc/sys/fs/binfmt_misc";
     EvWriteFile "/proc/sys/fs/binfmt_misc/qemu-riscv64" "-1";
     EvLog "uninstalling: %s OK" [ArgString "riscv64"];
     EvLog "installing: %s %v"
       [ArgString "foo";
        ArgError (Errorf "unsupported architecture: %v" [ArgString "foo"])];
     EvOpenFile "/proc/sys/fs/binfmt_misc/register";
     EvWrite "/proc/sys/fs/binfmt_misc/register"
       ":qemu-arm:M:0:\x7fELF\x01\x01\x01\x00\x00\x00\x00\x00\x00\x00\x00\x00\x02\x00\x28\x00:\xff\xff\xff\xff\xff\xff\xff\x00\xff\xff\xff\xff\xff\xff\xff\xff\xfe\xff\xff\xff:/usr/bin/qemu-arm:CF";
     EvClose "/proc/sys/fs/binfmt_misc/register";
     EvLog "installing: %s OK" [ArgString "arm"];
     EvReadDir "/proc/sys/fs/binfmt_misc";
     EvReadFile "/proc/sys/fs/binfmt_misc/qemu-arm";
     EvReadFile "/proc/sys/fs/binfmt_misc/qemu-aarch64";
     EvSupportedPlatforms;
     EvPrint {| Supported := ["linux/amd64"];
                Emulators := ["qemu-arm"; "qemu-aarch64"] |}].
Proof. vm_compute. reflexivity. Qed.


(** ** Which calls each function makes *)

Section Frames.

Context {World : Type} (sys : System World) (lib : Library) (p : Process).

Variable P : event → Prop.

Lemma only_ret {A : Type} (a : A) : emits_only P (@ret World A a).
Proof. intros w. constructor. Qed.

Lemma only_bind {A B : Type} (m : M World A) (f : A → M World B) :
  emits_only P m → (∀ a, emits_only P (f a)) → emits_only P (bind m f).
Proof.
  intros Hm Hf w. unfold bind, trace.
  specialize (Hm w). unfold trace in Hm.
  destruct (m w) as [[a w1] t1].
  specialize (Hf a w1). unfold trace in Hf.
  destruct (f a w1) as [[b w2] t2]. simpl in *.
  by apply Forall_app.
Qed.

Lemma only_emit (ev : event) : P ev → emits_only P (@emit World ev).
Proof. intros Hev w. by repeat constructor. Qed.

Lemma only_observe {A : Type} (ev : event) (f : World → A) :
  P ev → emits_only P (observe ev f).
Proof. intros Hev w. by repeat constructor. Qed.

Lemma only_perform {A : Type} (ev : event) (f : World → World * A) :
  P ev → emits_only P (perform ev f).
Proof.
  intros Hev w. unfold perform, trace. destruct (f w). by repeat constructor.
Qed.

Hypothesis P_Stat : ∀ path, P (EvStat path).
Hypothesis P_ReadDir : ∀ path, P (EvReadDir path).
Hypothesis P_ReadFile : ∀ path, P (EvReadFile path).
Hypothesis P_OpenFile : ∀ path, P (EvOpenFile path).
Hypothesis P_Write : ∀ path data, P (EvWrite path data).
Hypothesis P_Close : ∀ path, P (EvClose path).
Hypothesis P_WriteFile : ∀ path data, P (EvWriteFile path data).
Hypothesis P_Glob : ∀ pattern, P (EvGlob pattern).
Hypothesis P_SupportedPlatforms : P EvSupportedPlatforms.
Hypothesis P_Log : ∀ format args, P (EvLog format args).
Hypothesis P_Print : ∀ out, P (EvPrint out).

(** [uninstall] reads the directory and writes to an entry. *)
Lemma uninstall_only (arch : string) : emits_only P (uninstall sys p arch).
Proof using P_ReadDir P_WriteFile.
  apply only_bind; [by apply only_observe|].
  intros [err|fis]; [apply only_ret|].
  induction fis as [|name fis IH]; simpl; [apply only_ret|].
  destruct (uninstall_reserved name); [done|].
  destruct (uninstall_matches arch name); [|done].
  by apply only_perform.
Qed.

(** [install] opens the register file, writes to it and closes it. *)
Lemma install_only (arch : string) : emits_only P (install sys p arch).
Proof using P_OpenFile P_Write P_Close.
  unfold install. destruct (configs !! arch) as [cfg|]; [|apply only_ret].
  apply only_bind; [by apply only_observe|].
  intros [err|]; [apply only_ret|].
  destruct (getBinaryNames p cfg) as [err|[base full]].
  - apply only_bind; [by apply only_emit|]. intros _. apply only_ret.
  - apply only_bind; [by apply only_perform|]. intros written.
    apply only_bind; [by apply only_emit|]. intros _. apply only_ret.
Qed.

(** [printStatus] reads the directory and the entries, asks for the
    supported platforms and prints. *)
Lemma printStatus_loop_only (fis emulators : list string) :
  emits_only P (printStatus_loop sys p fis emulators).
Proof using P_ReadFile.
  revert emulators. induction fis as [|f fis IH]; intros emulators; simpl;
    [apply only_ret|].
  destruct (status_reserved f); [done|].
  apply only_bind; [by apply only_observe|].
  intros [err|dt]; [apply only_ret|].
  by destruct (Strings.HasPrefix dt "enabled").
Qed.

Lemma printStatus_only : emits_only P (printStatus sys lib p).
Proof using P_ReadDir P_ReadFile P_SupportedPlatforms P_Print.
  apply only_bind; [by apply only_observe|].
  intros [err|fis]; [apply only_ret|].
  apply only_bind; [apply printStatus_loop_only|].
  intros [err|emulators]; [apply only_ret|].
  apply only_bind; [by apply only_observe|]. intros supported.
  apply only_bind; [by apply only_emit|]. intros _. apply only_ret.
Qed.

(** [parseUninstall] globs. *)
Lemma parseUninstall_only (input : string) :
  emits_only P (parseUninstall sys lib p input).
Proof using P_Glob.
  unfold parseUninstall. destruct (String.eqb input ""); [apply only_ret|].
  induction (Strings.Split input ",") as [|v vs IH]; simpl; [apply only_ret|].
  apply only_bind; [by apply only_observe|]. intros globbed.
  apply only_bind; [done|]. intros out. apply only_ret.
Qed.

(** [allArch] asks for the supported platforms, logs and stats. *)
Lemma allArch_only : emits_only P (allArch sys lib p).
Proof using P_Stat P_SupportedPlatforms P_Log.
  apply only_bind; [by apply only_observe|]. intros supported.
  apply only_bind.
  - generalize (∅ : gset string).
    induction (formatPlatforms lib supported) as [|pp pps IH]; intros m; simpl;
      [apply only_ret|].
    destruct (platforms_Parse lib pp) as [err|pl]; [|done].
    apply only_bind; [by apply only_emit|]. done.
  - intros m. generalize (@nil string).
    induction (range_configs p) as [|name names IH]; intros out; simpl;
      [apply only_ret|].
    destruct (decide (name ∈ m)); [done|].
    destruct (getBinaryNames p _) as [err|[base full]]; [done|].
    apply only_bind; [by apply only_observe|].
    by intros [err|].
Qed.

Lemma run_uninstall_only (names : list string) :
  emits_only P (run_uninstall sys p names).
Proof using P_ReadDir P_WriteFile P_Log.
  induction names as [|name names IH]; simpl; [apply only_ret|].
  apply only_bind; [apply uninstall_only|].
  intros err. apply only_bind; [|done].
  destruct err; by apply only_emit.
Qed.

Lemma run_install_only (names : list string) :
  emits_only P (run_install sys p names).
Proof using P_OpenFile P_Write P_Close P_Log.
  induction names as [|name names IH]; simpl; [apply only_ret|].
  apply only_bind; [apply install_only|].
  intros err. apply only_bind; [|done].
  destruct err; by apply only_emit.
Qed.

(** Once the file system is mounted [run] makes every call but the mount
    and the unmount. *)
Lemma run_mounted_only : emits_only P (run_mounted sys lib p).
Proof using All.
  apply only_bind; [apply parseUninstall_only|]. intros names.
  apply only_bind; [apply run_uninstall_only|]. intros _.
  apply only_bind.
  - destruct (String.eqb (toInstall p) "all"); [apply allArch_only|apply only_ret].
  - intros archs. apply only_bind; [apply run_install_only|].
    intros _. apply printStatus_only.
Qed.

End Frames.

(** ** More on [install] and [getBinaryNames] *)

Section InstallOutcomes.

Context {World : Type} (sys : System World) (p : Process).

(** X1: [install] makes no call at all exactly for an architecture that is
    not in [configs]; it then returns the error [unsupported architecture]
    with the name it was given.  For an architecture of the table its first
    call opens the register file. *)
Theorem install_unsupported_iff (arch : string) (w : World) :
  (trace (install sys p arch w) = [] ↔ configs !! arch = None) ∧
  (configs !! arch = None →
   install sys p arch w
   = (Some (Errorf "unsupported architecture: %v" [ArgString arch]), w, [])) ∧
  (is_Some (configs !! arch) →
   ∃ rest, trace (install sys p arch w)
           = EvOpenFile (Filepath.Join [mount p; "register"]) :: rest).
Proof.
  unfold install, bind, observe.
  destruct (configs !! arch) as [cfg|]; simpl.
  - destruct (os_OpenFile sys w _) as [err|]; simpl.
    + repeat split; try done. eauto.
    + destruct (getBinaryNames p cfg) as [err|[base full]]; simpl.
      * repeat split; try done. eauto.
      * unfold perform. destruct (file_Write sys w _ _) as [w' written].
        simpl. repeat split; try done. eauto.
  - repeat split; try done; by intros [? ?].
Qed.

(** X2: when the register file does not open, [install] returns at once,
    before it looks at the prefix: nothing is written, the world is as it
    was, and the error names the cause by the errno of the path error:
    [ENOENT] (is it mounted?), [EPERM] (check permissions?), or the error
    itself. *)
Theorem install_open_failure (arch : string) (cfg : config) (w : World)
        (op path : string) (e : Z) :
  configs !! arch = Some cfg →
  let register := Filepath.Join [mount p; "register"] in
  os_OpenFile sys w register = Some (PathError op path (Errno e)) →
  install sys p arch w
  = (Some (if e =? ENOENT then
             Errorf "ENOENT opening %s is it mounted?" [ArgString register]
           else if e =? EPERM then
             Errorf "EPERM opening %s check permissions?" [ArgString register]
           else
             Errorf "Cannot open %s: %s"
               [ArgString register; ArgError (PathError op path (Errno e))]),
     w, [EvOpenFile register]).
Proof.
  intros Hcfg register Hopen.
  unfold install, bind, observe, ret. rewrite Hcfg. fold register.
  rewrite Hopen. unfold install_open_error. simpl.
  by destruct (e =? ENOENT), (e =? EPERM).
Qed.

(** X3: when the kernel refuses the record with [EEXIST], [install] returns
    the error [already registered] with the registered name, after closing
    the register file; the world is the one the kernel left. *)
Theorem install_already_registered (arch : string) (cfg : config)
        (name fullpath : string) (w w' : World) (op path : string) :
  configs !! arch = Some cfg →
  getBinaryNames p cfg = inr (name, fullpath) →
  let register := Filepath.Join [mount p; "register"] in
  let line :=
    registration_line name (magic cfg) (mask cfg) fullpath (install_flags p) in
  os_OpenFile sys w register = None →
  file_Write sys w register line = (w', Some (PathError op path (Errno EEXIST))) →
  install sys p arch w
  = (Some (Errorf "%s already registered" [ArgString name]), w',
     [EvOpenFile register; EvWrite register line; EvClose register]).
Proof.
  intros Hcfg Hnames register line Hopen Hwrite.
  rewrite (install_resolved sys p _ _ _ _ w Hcfg Hnames).
  fold register line. by rewrite Hopen, Hwrite.
Qed.

(** X4: once the register file is open and the names resolve, [install]
    returns no error exactly when the write of the record returns none; in
    both cases the file is closed after the write and the world is the one
    the write left. *)
Theorem install_ok_iff_written (arch : string) (cfg : config)
        (name fullpath : string) (w : World) :
  configs !! arch = Some cfg →
  getBinaryNames p cfg = inr (name, fullpath) →
  let register := Filepath.Join [mount p; "register"] in
  let line :=
    registration_line name (magic cfg) (mask cfg) fullpath (install_flags p) in
  os_OpenFile sys w register = None →
  (result (install sys p arch w) = None ↔
   (file_Write sys w register line).2 = None) ∧
  world_after (install sys p arch w) = (file_Write sys w register line).1 ∧
  trace (install sys p arch w)
  = [EvOpenFile register; EvWrite register line; EvClose register].
Proof.
  intros Hcfg Hnames register line Hopen.
  rewrite (install_resolved sys p _ _ _ _ w Hcfg Hnames).
  fold register line. rewrite Hopen.
  destruct (file_Write sys w register line) as [w' [err|]]; simpl;
    repeat split; done.
Qed.

Lemma ContainsRune_append (a b : string) (r : ascii) :
  Strings.ContainsRune (a +:+ b) r
  = Strings.ContainsRune a r || Strings.ContainsRune b r.
Proof.
  induction a as [|c a IH]; simpl; [done|]. by rewrite IH, orb_assoc.
Qed.

(** X5: [getBinaryNames] fails exactly when the prefix contains a path
    separator.  When it succeeds the name is the prefix followed by the
    binary of the configuration, the path is that name joined to
    [QEMU_BINARY_PATH], or to [/usr/bin] when that is empty, and the name has
    no separator unless the binary has one. *)
Theorem getBinaryNames_resolves_iff (cfg : config) :
  let prefix := Getenv p "QEMU_BINARY_PREFIX" in
  let directory :=
    if String.eqb (Getenv p "QEMU_BINARY_PATH") "" then "/usr/bin"
    else Getenv p "QEMU_BINARY_PATH" in
  ((∃ names, getBinaryNames p cfg = inr names) ↔
   Strings.ContainsRune prefix Filepath.PathSeparator = false) ∧
  ∀ name fullpath,
    getBinaryNames p cfg = inr (name, fullpath) →
    name = prefix +:+ binary cfg ∧
    fullpath = Filepath.Join [directory; name] ∧
    (Strings.ContainsRune (binary cfg) Filepath.PathSeparator = false →
     Strings.ContainsRune name Filepath.PathSeparator = false).
Proof.
  intros prefix directory.
  destruct (Strings.ContainsRune prefix Filepath.PathSeparator) eqn:Hsep.
  - rewrite (getBinaryNames_separator p cfg Hsep).
    split; [split; [by intros [? ?]|done]|done].
  - rewrite (getBinaryNames_no_separator p cfg Hsep).
    split; [split; eauto|].
    intros name fullpath [= <- <-]. repeat split.
    intros Hbin. fold prefix. by rewrite ContainsRune_append, Hsep, Hbin.
Qed.

End InstallOutcomes.

(** ** More on [uninstall] and [printStatus] *)

Section DirectoryOutcomes.

Context {World : Type} (sys : System World) (lib : Library) (p : Process).

(** X6: [uninstall] returns the error of a directory read that fails, and
    writes nothing then.  Whatever it writes is [-1], to an entry of the
    listing that matches the target and is none of [register], [status]
    and [WSLInterop]: those three are never written to, even when they are
    the target. *)
Theorem uninstall_spares_reserved (arch : string) (w : World) :
  (∀ err, os_ReadDir sys w (mount p) = inl err →
          uninstall sys p arch w = (Some err, w, [EvReadDir (mount p)])) ∧
  ∀ ev, In ev (trace (uninstall sys p arch w)) → is_write ev = true →
        ∃ fis name,
          os_ReadDir sys w (mount p) = inr fis ∧ In name fis ∧
          name ≠ "register" ∧ name ≠ "status" ∧ name ≠ "WSLInterop" ∧
          uninstall_matches arch name = true ∧
          ev = EvWriteFile (Filepath.Join [mount p; name]) "-1".
Proof.
  unfold uninstall, bind, observe.
  destruct (os_ReadDir sys w (mount p)) as [err|fis] eqn:Hdir; simpl.
  - split; [by intros ? [= ->]|].
    intros ev [<-|[]]. discriminate.
  - split; [done|].
    destruct (listing_first_match arch fis)
      as [Hnone|(before & name & after & -> & Hb & Hr & Hm)].
    + rewrite (uninstall_loop_passed_over sys p arch fis w Hnone). simpl.
      intros ev [<-|[]]. discriminate.
    + rewrite (uninstall_loop_first sys p arch before name after w Hb Hr Hm).
      unfold perform. destruct (os_WriteFile sys w _ _) as [w' err]. simpl.
      intros ev [<-|[<-|[]]]; [discriminate|]. intros _.
      apply uninstall_reserved_false in Hr as (? & ? & ?).
      exists (before ++ name :: after), name.
      repeat split; try done. apply in_elt.
Qed.

(** What [printStatus] returns and does: an error after reads only, or no
    error after reads and one print. *)
Lemma printStatus_loop_reads (fis emulators : list string) (w : World) :
  ∃ r reads,
    printStatus_loop sys p fis emulators w = (r, w, reads) ∧
    Forall (λ ev, is_read ev = true) reads.
Proof.
  revert emulators. induction fis as [|f fis IH]; intros emulators; simpl.
  - by exists (inr emulators), [].
  - destruct (status_reserved f); [apply IH|].
    unfold bind, observe.
    destruct (os_ReadFile sys w _) as [err|dt].
    + exists (inl err), [EvReadFile (Filepath.Join [mount p; f])].
      split; [done|]. by repeat constructor.
    + destruct (Strings.HasPrefix dt "enabled");
        [destruct (IH (emulators ++ [f])) as (r & reads & -> & Hreads)
        |destruct (IH emulators) as (r & reads & -> & Hreads)];
        exists r, (EvReadFile (Filepath.Join [mount p; f]) :: reads);
        (split; [done|by constructor]).
Qed.

Lemma printStatus_shape (w : World) :
  (∃ err reads,
     printStatus sys lib p w = (Some err, w, reads) ∧
     Forall (λ ev, is_read ev = true) reads) ∨
  (∃ reads out,
     printStatus sys lib p w = (None, w, reads ++ [EvPrint out]) ∧
     Forall (λ ev, is_read ev = true) reads).
Proof.
  unfold printStatus, bind, observe, SupportedPlatforms, emit, ret.
  destruct (os_ReadDir sys w (mount p)) as [err|fis].
  - left. exists err, [EvReadDir (mount p)]. split; [done|].
    by repeat constructor.
  - destruct (printStatus_loop_reads fis [] w)
      as ([err|emulators] & reads & -> & Hreads).
    + left. exists err, (EvReadDir (mount p) :: reads).
      simpl. rewrite app_nil_r. split; [done|]. by constructor.
    + right. exists (EvReadDir (mount p) :: reads ++ [EvSupportedPlatforms]).
      eexists. simpl. rewrite <- app_assoc. split; [done|].
      constructor; [done|]. apply Forall_app. split; [done|].
      by repeat constructor.
Qed.

(** X7: [printStatus] changes nothing: the world after it is the world
    before it.  It returns an error after calls that only read and prints
    nothing then; or it returns none after calls that only read, followed
    by the print of one snapshot. *)
Theorem printStatus_read_only (w : World) :
  world_after (printStatus sys lib p w) = w ∧
  ((∃ err, result (printStatus sys lib p w) = Some err ∧
           Forall (λ ev, is_read ev = true) (trace (printStatus sys lib p w))) ∨
   (result (printStatus sys lib p w) = None ∧
    ∃ reads out,
      trace (printStatus sys lib p w) = reads ++ [EvPrint out] ∧
      Forall (λ ev, is_read ev = true) reads)).
Proof.
  destruct (printStatus_shape w)
    as [(err & reads & -> & Hreads)|(reads & out & -> & Hreads)].
  - split; [done|]. left. by exists err.
  - split; [done|]. right. split; [done|]. by exists reads, out.
Qed.

Lemma printStatus_loop_unreadable (before after : list string) (f : string)
      (err : error) (emulators : list string) (w : World) :
  (∀ name, In name before → status_reserved name = false →
           ∃ dt, entry_content sys p w name = inr dt) →
  status_reserved f = false →
  entry_content sys p w f = inl err →
  result (printStatus_loop sys p (before ++ f :: after) emulators w) = inl err.
Proof.
  intros Hbefore Hf Herr. revert emulators.
  induction before as [|x before IH]; intros emulators; simpl.
  - rewrite Hf. unfold bind, observe.
    fold (entry_content sys p w f). by rewrite Herr.
  - assert (∀ name, In name before → status_reserved name = false →
                    ∃ dt, entry_content sys p w name = inr dt) as Hrest
      by (intros name Hin; apply Hbefore; by right).
    destruct (status_reserved x) eqn:Hx; [by apply IH|].
    destruct (Hbefore x) as [dt Hdt]; [by left|done|].
    unfold bind, observe. fold (entry_content sys p w x). rewrite Hdt.
    destruct (Strings.HasPrefix dt "enabled").
    + specialize (IH Hrest (emulators ++ [x])).
      by destruct (printStatus_loop sys p _ (emulators ++ [x]) w) as [[r w'] t].
    + specialize (IH Hrest emulators).
      by destruct (printStatus_loop sys p _ emulators w) as [[r w'] t].
Qed.

(** X8: one entry that does not read makes [printStatus] fail as a whole:
    it returns the read error of the first such entry of the listing that
    is neither [register] nor [status], and prints no snapshot, whatever
    the entries after it hold. *)
Theorem printStatus_unreadable_entry (before after : list string) (f : string)
        (err : error) (w : World) :
  os_ReadDir sys w (mount p) = inr (before ++ f :: after) →
  (∀ name, In name before → status_reserved name = false →
           ∃ dt, entry_content sys p w name = inr dt) →
  status_reserved f = false →
  entry_content sys p w f = inl err →
  result (printStatus sys lib p w) = Some err ∧
  Forall (λ ev, is_print ev = false) (trace (printStatus sys lib p w)).
Proof.
  intros Hdir Hbefore Hf Herr.
  pose proof (printStatus_loop_unreadable before after f err [] w
                Hbefore Hf Herr) as Hloop.
  assert (result (printStatus sys lib p w) = Some err) as Hres.
  { unfold printStatus, bind, observe. rewrite Hdir.
    destruct (printStatus_loop sys p _ [] w) as [[r w'] t].
    unfold result in Hloop. simpl in Hloop. by subst r. }
  split; [done|].
  destruct (printStatus_shape w)
    as [(err' & reads & Heq & Hreads)|(reads & out & Heq & _)];
    rewrite Heq in *; [|done].
  simpl. eapply Forall_impl; [exact Hreads|].
  by intros [] ?.
Qed.

End DirectoryOutcomes.

(** ** The selectors: [parseArch] and [parseUninstall] *)

Section SplitFacts.

Lemma append_String (x : ascii) (a b : string) :
  String x a +:+ b = String x (a +:+ b).
Proof. reflexivity. Qed.

Lemma append_assoc (a b c : string) : (a +:+ b) +:+ c = a +:+ (b +:+ c).
Proof.
  induction a as [|x a IH]; [done|]. rewrite !append_String. by f_equal.
Qed.

Lemma append_nil_r (a : string) : a +:+ "" = a.
Proof.
  induction a as [|x a IH]; [done|]. rewrite append_String. by f_equal.
Qed.

Lemma rev_app_append (cur acc : string) :
  String.rev_app cur acc = String.rev cur +:+ acc.
Proof.
  revert acc. induction cur as [|x cur IH]; intros acc; [done|].
  unfold String.rev. simpl. rewrite (IH (String x acc)), (IH (String x "")).
  by rewrite append_assoc.
Qed.

Lemma rev_String (x : ascii) (cur : string) :
  String.rev (String x cur) = String.rev cur +:+ String x "".
Proof. unfold String.rev at 1. simpl. apply rev_app_append. Qed.

(** A piece without separator is not split. *)
Lemma split_acc_no_sep (sep : ascii) (cur s : string) :
  Strings.ContainsRune s sep = false →
  Strings.split_acc sep cur s = [String.rev cur +:+ s].
Proof.
  revert cur. induction s as [|c s IH]; intros cur; simpl.
  - intros _. by rewrite append_nil_r.
  - intros [Hc Hs]%orb_false_iff. rewrite Hc, (IH _ Hs), rev_String.
    by rewrite append_assoc.
Qed.

(** The first separator ends the first piece. *)
Lemma split_acc_sep (sep : ascii) (cur s rest : string) :
  Strings.ContainsRune s sep = false →
  Strings.split_acc sep cur (s +:+ String sep rest)
  = (String.rev cur +:+ s) :: Strings.split_acc sep "" rest.
Proof.
  revert cur. induction s as [|c s IH]; intros cur; simpl.
  - intros _. rewrite Ascii.eqb_refl. by rewrite append_nil_r.
  - intros [Hc Hs]%orb_false_iff. rewrite ?append_String. simpl.
    rewrite Hc, (IH _ Hs), rev_String. by rewrite append_assoc.
Qed.

(** Splitting at the commas undoes joining with commas. *)
Lemma Split_Join (tokens : list string) :
  tokens ≠ [] →
  Forall (λ t, Strings.ContainsRune t ","%char = false) tokens →
  Strings.Split (Strings.Join tokens ",") ","%char = tokens.
Proof.
  intros Hne Hall. induction Hall as [|t tokens Ht Hall IH]; [done|].
  destruct tokens as [|t' tokens].
  - unfold Strings.Split. simpl. by rewrite split_acc_no_sep.
  - unfold Strings.Split in *.
    change (Strings.Join (t :: t' :: tokens) ",")
      with (t +:+ String ","%char (Strings.Join (t' :: tokens) ",")).
    rewrite split_acc_sep by done. simpl. f_equal. by apply IH.
Qed.

End SplitFacts.

Section Selectors.

Context {World : Type} (sys : System World) (lib : Library) (p : Process).

(** X9: [parseArch] gives one architecture for each piece of the selector
    between commas, in the order of the selector: the architecture of the
    piece when it parses as a platform, the piece itself otherwise.  The
    empty selector gives none. *)
Theorem parseArch_tokens (tokens : list string) :
  Strings.Join tokens "," ≠ "" →
  Forall (λ t, Strings.ContainsRune t ","%char = false) tokens →
  parseArch lib "" = [] ∧
  parseArch lib (Strings.Join tokens ",")
  = map (λ v, match platforms_Parse lib v with
              | inl _ => v
              | inr pl => Architecture pl
              end) tokens.
Proof.
  intros Hne Hall. split; [done|].
  unfold parseArch.
  destruct (String.eqb_spec (Strings.Join tokens ",") ""); [done|].
  rewrite Split_Join; [done| |done]. by intros ->.
Qed.

Lemma parseUninstall_loop_spec (vs : list string) (w : World) :
  parseUninstall_loop sys lib p vs w
  = (concat (map (piece_targets sys lib p w) vs), w,
     map (λ v, EvGlob (Filepath.Join [mount p; uninstall_piece lib v])) vs).
Proof.
  induction vs as [|v vs IH]; [done|].
  cbn [parseUninstall_loop map concat].
  unfold bind, observe, ret. rewrite IH.
  fold (uninstall_piece lib v). unfold piece_targets.
  destruct (filepath_Glob sys w (Filepath.Join [mount p; uninstall_piece lib v]))
    as [err|[|f fis]]; simpl; by rewrite ?app_nil_r.
Qed.

(** X10: [parseUninstall] changes nothing and only globs, once for each
    piece of the selector between commas, in their order.  Its targets are
    those of the first piece, then those of the second, and so on, and
    every piece has at least one: the base names of what its glob matches,
    or the piece looked for when the glob matches nothing or fails.  The
    empty selector gives no target and makes no call. *)
Theorem parseUninstall_targets (input : string) (w : World) :
  world_after (parseUninstall sys lib p input w) = w ∧
  Forall is_Glob (trace (parseUninstall sys lib p input w)) ∧
  (input = "" → parseUninstall sys lib p input w = ([], w, [])) ∧
  (input ≠ "" →
   result (parseUninstall sys lib p input w)
   = concat (map (piece_targets sys lib p w) (Strings.Split input ","%char)) ∧
   trace (parseUninstall sys lib p input w)
   = map (λ v, EvGlob (Filepath.Join [mount p; uninstall_piece lib v]))
         (Strings.Split input ","%char)) ∧
  (∀ v, piece_targets sys lib p w v ≠ []).
Proof.
  assert (∀ v, piece_targets sys lib p w v ≠ []) as Hsome.
  { intros v. unfold piece_targets.
    by destruct (filepath_Glob sys w _) as [err|[|f fis]]. }
  unfold parseUninstall.
  destruct (String.eqb_spec input "") as [->|Hne].
  - repeat split; try done; constructor.
  - rewrite parseUninstall_loop_spec.
    repeat split; try done.
    apply Forall_forall. intros ev (v & -> & _)%list_elem_of_fmap.
    by eexists.
Qed.

(** X11: a selector of one piece, without comma.  The piece is first
    replaced by the binary of its architecture without the leading [qemu-]
    when it parses as a platform whose architecture is in [configs].  The
    targets are the base names of the paths the glob of the piece under the
    mount point matches; when the glob matches nothing or fails, the one
    target is the piece itself. *)
Theorem parseUninstall_single (input : string) (w : World) :
  input ≠ "" →
  Strings.ContainsRune input ","%char = false →
  let v :=
    match platforms_Parse lib input with
    | inr pl =>
        match configs !! Architecture pl with
        | Some c => Strings.TrimPrefix (binary c) "qemu-"
        | None => input
        end
    | inl _ => input
    end in
  let pattern := Filepath.Join [mount p; v] in
  parseUninstall sys lib p input w
  = (match filepath_Glob sys w pattern with
     | inr (f :: fis) => map Filepath.Base (f :: fis)
     | _ => [v]
     end, w, [EvGlob pattern]).
Proof.
  intros Hne Hcomma v pattern.
  unfold parseUninstall.
  destruct (String.eqb_spec input ""); [done|].
  unfold Strings.Split. rewrite split_acc_no_sep by done.
  change (String.rev "" +:+ input) with input.
  unfold parseUninstall_loop, bind, observe, ret. fold v. fold pattern.
  destruct (filepath_Glob sys w pattern) as [err|[|f fis]]; simpl;
    by rewrite ?app_nil_r.
Qed.

End Selectors.

(** ** The table and the names and records made from it *)

Section TableNames.

Lemma TrimPrefix_append (prefix rest : string) :
  Strings.TrimPrefix (prefix +:+ rest) prefix = rest.
Proof.
  unfold Strings.TrimPrefix.
  assert (Strings.HasPrefix (prefix +:+ rest) prefix = true) as ->
    by (apply HasPrefix_spec; eauto).
  rewrite length_append.
  replace (String.length prefix + String.length rest - String.length prefix)%nat
    with (String.length rest) by lia.
  apply substring_append_r.
Qed.

(** X12: for every architecture of [configs] and every prefix, the target
    [parseUninstall] derives from the architecture (its binary without the
    leading [qemu-]) is matched by [uninstall] against the name [install]
    registers (the prefix followed by the binary). *)
Theorem uninstall_target_matches_registered (arch : string) (cfg : config)
        (prefix : string) :
  configs !! arch = Some cfg →
  uninstall_matches (Strings.TrimPrefix (binary cfg) "qemu-")
                    (prefix +:+ binary cfg) = true.
Proof.
  intros Hcfg.
  assert (Strings.HasPrefix (binary cfg) "qemu-" = true) as Hq.
  { revert arch cfg Hcfg.
    apply (configs_forall (λ _ c, Strings.HasPrefix (binary c) "qemu-")).
    vm_compute. reflexivity. }
  apply HasPrefix_spec in Hq as [rest ->].
  rewrite TrimPrefix_append. apply uninstall_matches_spec. right.
  exists (prefix +:+ "qemu").
  by rewrite !append_assoc.
Qed.

(** X13: two architectures of [configs] never register under the same
    name: when their names resolve, the names differ, and neither has a
    path separator in it. *)
Theorem registered_names_distinct (p : Process) (a1 a2 : string)
        (c1 c2 : config) (n1 p1 n2 p2 : string) :
  configs !! a1 = Some c1 → configs !! a2 = Some c2 → a1 ≠ a2 →
  getBinaryNames p c1 = inr (n1, p1) →
  getBinaryNames p c2 = inr (n2, p2) →
  n1 ≠ n2 ∧
  Strings.ContainsRune n1 Filepath.PathSeparator = false ∧
  Strings.ContainsRune n2 Filepath.PathSeparator = false.
Proof.
  intros H1 H2 Hne Hn1 Hn2.
  destruct (Strings.ContainsRune (Getenv p "QEMU_BINARY_PREFIX")
                                 Filepath.PathSeparator) eqn:Hsep;
    [by rewrite (getBinaryNames_separator p c1 Hsep) in Hn1|].
  rewrite (getBinaryNames_no_separator p c1 Hsep) in Hn1.
  rewrite (getBinaryNames_no_separator p c2 Hsep) in Hn2.
  injection Hn1 as <- _. injection Hn2 as <- _.
  assert (∀ arch c, configs !! arch = Some c →
            Strings.ContainsRune (binary c) Filepath.PathSeparator = false)
    as Hbin.
  { intros arch c Hc.
    apply negb_true_iff. revert arch c Hc.
    apply (configs_forall
             (λ _ c, negb (Strings.ContainsRune (binary c)
                                                Filepath.PathSeparator))).
    vm_compute. reflexivity. }
  rewrite !ContainsRune_append, Hsep, (Hbin _ _ H1), (Hbin _ _ H2).
  split; [|done].
  intros Heq%(inj (String.append _)).
  pose (check := λ (a1 : string) (c1 : config),
     forallb (λ e : string * config,
                bool_decide (a1 = e.1)
                || negb (String.eqb (binary c1) (binary e.2)))
             configs_literal).
  assert (check a1 c1 = true) as Hrow
    by (apply (configs_forall check); [vm_compute; reflexivity | done]).
  unfold check in Hrow. rewrite forallb_forall in Hrow.
  apply configs_lookup_literal, list_elem_of_In in H2.
  specialize (Hrow _ H2). simpl in Hrow.
  apply orb_true_iff in Hrow as [Heq'|Hdiff].
  - by apply bool_decide_eq_true in Heq'.
  - apply negb_true_iff, String.eqb_neq in Hdiff. done.
Qed.

Lemma Split_field (a rest : string) :
  Strings.ContainsRune a ":"%char = false →
  Strings.split_acc ":"%char "" (a +:+ String ":"%char rest)
  = a :: Strings.split_acc ":"%char "" rest.
Proof. intros Ha. by rewrite split_acc_sep. Qed.

(** X14: the record [install] composes reads back as its fields: split at
    the colons it gives the empty string, the name, [M], [0], the magic,
    the mask, the path and the flags, for every architecture of [configs],
    as long as the name, the path and the flags hold no colon. *)
Theorem registration_record_fields (arch : string) (cfg : config)
        (name path flags : string) :
  configs !! arch = Some cfg →
  Strings.ContainsRune name ":"%char = false →
  Strings.ContainsRune path ":"%char = false →
  Strings.ContainsRune flags ":"%char = false →
  record_fields (registration_line name (magic cfg) (mask cfg) path flags)
  = [""; name; "M"; "0"; magic cfg; mask cfg; path; flags].
Proof.
  intros Hcfg Hname Hpath Hflags.
  assert (Strings.ContainsRune (magic cfg) ":"%char = false
          ∧ Strings.ContainsRune (mask cfg) ":"%char = false)
    as [Hmagic Hmask].
  { rewrite <- !negb_true_iff. apply andb_true_iff.
    revert arch cfg Hcfg.
    apply (configs_forall
             (λ _ c, negb (Strings.ContainsRune (magic c) ":"%char)
                     && negb (Strings.ContainsRune (mask c) ":"%char))).
    vm_compute. reflexivity. }
  unfold record_fields, Strings.Split, registration_line.
  change (":" +:+ name +:+ ":M:0:" +:+ magic cfg +:+ ":" +:+ mask cfg +:+ ":"
          +:+ path +:+ ":" +:+ flags)
    with ("" +:+ String ":"%char
           (name +:+ String ":"%char
             ("M" +:+ String ":"%char
               ("0" +:+ String ":"%char
                 (magic cfg +:+ String ":"%char
                   (mask cfg +:+ String ":"%char
                     (path +:+ String ":"%char flags))))))).
  rewrite !Split_field by done.
  by rewrite split_acc_no_sep.
Qed.

Lemma byte_matches_exact (b g : Z) :
  0 ≤ b < 256 → 0 ≤ g < 256 → byte_matches b g 255 = true → b = g.
Proof.
  intros Hb Hg Hm. unfold byte_matches in Hm. apply Z.eqb_eq in Hm.
  apply Z.bits_inj'. intros n Hn.
  destruct (Z.lt_ge_cases n 8) as [Hlow|Hhigh].
  - apply (f_equal (λ z, Z.testbit z n)) in Hm.
    rewrite Z.land_spec, Z.lxor_spec, Z.bits_0 in Hm.
    change 255 with (Z.ones 8) in Hm.
    rewrite Z.ones_spec_low, andb_true_r in Hm by lia.
    by apply xorb_eq.
  - rewrite <- (Z.mod_small b (2 ^ 8)), <- (Z.mod_small g (2 ^ 8)) by lia.
    by rewrite !Z.mod_pow2_bits_high by lia.
Qed.

Lemma bytes_match_length (s gs ks : list Z) :
  bytes_match s gs ks = true → (length gs ≤ length s)%nat.
Proof.
  revert gs ks. induction s as [|b s IH]; intros [|g gs] [|k ks]; simpl;
    try done; try lia.
  intros [_ Hrest]%andb_true_iff. apply IH in Hrest. lia.
Qed.

(** X15: a byte sequence that matches an entry of [configs] is an ELF
    header: it has at least 20 bytes and begins with [0x7f], [E], [L],
    [F]. *)
Theorem configs_match_only_elf (arch : string) (c : config) (s : list Z) :
  configs !! arch = Some c →
  Forall (λ b, 0 ≤ b < 256) s →
  sig_matches c s = true →
  take 4 s = [127; 69; 76; 70] ∧ (20 ≤ length s)%nat.
Proof.
  intros Hc Hrange Hmatch.
  pose (check := λ (_ : string) (c : config),
     bool_decide (take 4 (magic_bytes c) = [127; 69; 76; 70])
     && bool_decide (take 4 (mask_bytes c) = [255; 255; 255; 255])
     && bool_decide (length (magic_bytes c) = 20%nat)).
  assert (check arch c = true) as Hcheck
    by (apply (configs_forall check); [vm_compute; reflexivity | done]).
  unfold check in Hcheck.
  apply andb_true_iff in Hcheck as [[Hmagic Hmask]%andb_true_iff Hlen].
  apply bool_decide_eq_true in Hmagic, Hmask, Hlen.
  unfold sig_matches in Hmatch.
  split; [|rewrite <- Hlen; by apply bytes_match_length in Hmatch].
  destruct (magic_bytes c) as [|g0 [|g1 [|g2 [|g3 gs]]]]; try done.
  destruct (mask_bytes c) as [|k0 [|k1 [|k2 [|k3 ks]]]]; try done.
  injection Hmagic as -> -> -> ->. injection Hmask as -> -> -> ->.
  destruct s as [|b0 [|b1 [|b2 [|b3 s]]]]; simpl in Hmatch;
    rewrite ?andb_false_r in Hmatch; try done.
  apply andb_true_iff in Hmatch as [M0 Hmatch].
  apply andb_true_iff in Hmatch as [M1 Hmatch].
  apply andb_true_iff in Hmatch as [M2 Hmatch].
  apply andb_true_iff in Hmatch as [M3 _].
  inversion Hrange as [|? ? R0 Hr1]; subst.
  inversion Hr1 as [|? ? R1 Hr2]; subst.
  inversion Hr2 as [|? ? R2 Hr3]; subst.
  inversion Hr3 as [|? ? R3 _]; subst.
  simpl.
  rewrite (byte_matches_exact b0 127), (byte_matches_exact b1 69),
    (byte_matches_exact b2 76), (byte_matches_exact b3 70); try done; lia.
Qed.

End TableNames.


(** ** More on [allArch] *)

Section AllArchOutcomes.

Context {World : Type} (sys : System World) (lib : Library).

Lemma filter_Permutation {A : Type} (f : A → bool) (l l' : list A) :
  l ≡ₚ l' → List.filter f l ≡ₚ List.filter f l'.
Proof.
  induction 1 as [|x l l' _ IH|x y l|l l' l'' _ IH _ IH']; simpl.
  - done.
  - destruct (f x); [by constructor|done].
  - destruct (f x), (f y); try done. apply perm_swap.
  - by etrans.
Qed.

Lemma getBinaryNames_environ (p p' : Process) (cfg : config) :
  environ p = environ p' → getBinaryNames p cfg = getBinaryNames p' cfg.
Proof. intros Henv. unfold getBinaryNames, Getenv. by rewrite Henv. Qed.

Lemma allArch_world (p : Process) (w : World) :
  world_after (allArch sys lib p w) = w.
Proof.
  unfold allArch, bind, SupportedPlatforms, observe.
  destruct (allArch_supported_spec lib
              (formatPlatforms lib (archutil_SupportedPlatforms sys w)) ∅ w)
    as [logs ->].
  by destruct (allArch_loop_spec sys p
                 (list_to_set
                    (omap (parsed_arch lib)
                       (formatPlatforms lib (archutil_SupportedPlatforms sys w)))
                  ∪ ∅) (range_configs p) [] w) as [stats ->].
Qed.

(** X16: the architectures [allArch] returns do not depend on the order in
    which the map is visited, only their order does: two runs in the same
    environment and world, visiting the keys in two orders, return
    permutations of one another. *)
Theorem allArch_order_independent (p p' : Process) (w : World) :
  environ p = environ p' →
  (range_configs p ≡ₚ range_configs p') →
  result (allArch sys lib p w) ≡ₚ result (allArch sys lib p' w).
Proof.
  intros Henv Horder. rewrite !allArch_result.
  rewrite (filter_Permutation _ _ _ Horder).
  erewrite filter_ext; [done|].
  intros name. unfold allArch_keeps, binary_found.
  by rewrite (getBinaryNames_environ p p' _ Henv).
Qed.

(** X17: [allArch] changes nothing and writes nothing: it only asks for the
    supported platforms, stats and logs.  It returns each key of the map at
    most once, so never more names than [configs] has. *)
Theorem allArch_read_only (p : Process) (w : World) :
  world_after (allArch sys lib p w) = w ∧
  Forall (λ ev, is_write ev = false ∧ is_mount ev = false)
         (trace (allArch sys lib p w)) ∧
  (length (result (allArch sys lib p w)) ≤ length (range_configs p))%nat ∧
  (NoDup (range_configs p) → NoDup (result (allArch sys lib p w))).
Proof.
  split; [apply allArch_world|].
  split; [by apply allArch_only|].
  rewrite allArch_result.
  split; [apply List.filter_length_le|].
  intros Hnodup%NoDup_ListNoDup. apply NoDup_ListNoDup.
  by apply List.NoDup_filter.
Qed.

(** X18: with a path separator in [QEMU_BINARY_PREFIX], [allArch] returns
    every key of the map that is not a supported architecture, whatever is
    on disk, and stats nothing. *)
Theorem allArch_bad_prefix (p : Process) (w : World) :
  Strings.ContainsRune (Getenv p "QEMU_BINARY_PREFIX") Filepath.PathSeparator
  = true →
  result (allArch sys lib p w)
  = List.filter (λ name, bool_decide (name ∉ supported_archs sys lib w))
                (range_configs p) ∧
  Forall (λ ev, ∀ path, ev ≠ EvStat path) (trace (allArch sys lib p w)).
Proof.
  intros Hsep. split.
  - rewrite allArch_result. apply filter_ext. intros name.
    unfold allArch_keeps, binary_found.
    by rewrite (getBinaryNames_separator p _ Hsep), andb_true_r.
  - unfold allArch. apply only_bind; [by apply only_observe|].
    intros supported. apply only_bind.
    + generalize (∅ : gset string).
      induction (formatPlatforms lib supported) as [|pp pps IH]; intros m;
        simpl; [apply only_ret|].
      destruct (platforms_Parse lib pp) as [err|pl]; [|done].
      apply only_bind; [by apply only_emit|]. done.
    + intros m. generalize (@nil string).
      induction (range_configs p) as [|name names IH]; intros out; simpl;
        [apply only_ret|].
      destruct (decide (name ∈ m)); [done|].
      by rewrite (getBinaryNames_separator p _ Hsep).
Qed.

End AllArchOutcomes.

(** ** More on [run] *)

Section RunOutcomes.

Context {World : Type} (sys : System World) (lib : Library) (p : Process).

(** X19: when the status file is there, [run] neither mounts nor unmounts:
    after the stat it does what it does on a mounted file system and
    returns that result. *)
Theorem run_already_mounted (w : World) :
  flVersion p = false →
  os_Stat sys w (Filepath.Join [mount p; "status"]) = None →
  run sys lib p w
  = (result (run_mounted sys lib p w), world_after (run_mounted sys lib p w),
     EvStat (Filepath.Join [mount p; "status"])
     :: trace (run_mounted sys lib p w)) ∧
  Forall (λ ev, is_mount ev = false) (trace (run sys lib p w)).
Proof.
  intros Hversion Hstat.
  assert (run sys lib p w
          = (result (run_mounted sys lib p w),
             world_after (run_mounted sys lib p w),
             EvStat (Filepath.Join [mount p; "status"])
             :: trace (run_mounted sys lib p w))) as Hrun.
  { unfold run, bind, observe. rewrite Hversion, Hstat.
    by destruct (run_mounted sys lib p w) as [[r w'] t]. }
  split; [done|]. rewrite Hrun. simpl.
  constructor; [done|]. by apply run_mounted_only.
Qed.

(** X20: when the status file is not there and the mount succeeds, [run]
    does what it does on a mounted file system, in the world the mount
    left, and unmounts as its last call, also when the status report
    failed; it returns the result it had before the unmount, and what the
    unmount returns is dropped. *)
Theorem run_mounts_and_unmounts (w w1 : World) :
  flVersion p = false →
  is_Some (os_Stat sys w (Filepath.Join [mount p; "status"])) →
  syscall_Mount sys w "binfmt_misc" (mount p) "binfmt_misc" = (w1, None) →
  run sys lib p w
  = (result (run_mounted sys lib p w1),
     (syscall_Unmount sys (world_after (run_mounted sys lib p w1)) (mount p)).1,
     [EvStat (Filepath.Join [mount p; "status"]);
      EvMount "binfmt_misc" (mount p) "binfmt_misc"]
     ++ trace (run_mounted sys lib p w1) ++ [EvUnmount (mount p)]) ∧
  Forall (λ ev, is_mount ev = false) (trace (run_mounted sys lib p w1)).
Proof.
  intros Hversion [err Hstat] Hmount. split; [|by apply run_mounted_only].
  unfold run, bind, observe, perform, ret. rewrite Hversion, Hstat, Hmount.
  destruct (run_mounted sys lib p w1) as [[r w2] t].
  unfold result, world_after, trace. simpl.
  by destruct (syscall_Unmount sys w2 (mount p)) as [w3 e].
Qed.

Lemma filter_is_log_none (t : list event) :
  Forall (λ ev, is_log ev = false) t → List.filter is_log t = [].
Proof.
  induction 1 as [|ev t Hev _ IH]; simpl; [done|]. by rewrite Hev.
Qed.

Lemma outcomes_length (step : string → M World (option error))
      (names : list string) (w : World) :
  length (outcomes step names w) = length names.
Proof.
  revert w. induction names as [|name names IH]; intros w; simpl; [done|].
  by rewrite IH.
Qed.

(** X21: [run] reports on every name it is asked to install, in the order
    asked: the log records of the install loop are, name by name, the
    record of what [install] returned for that name ([OK] for no error, the
    error otherwise), each [install] running in the world the ones before
    it left.  A failure stops nothing. *)
Theorem run_install_reports (names : list string) (w : World) :
  List.filter is_log (trace (run_install sys p names w))
  = zip_with (outcome_log "installing") names
             (outcomes (install sys p) names w) ∧
  length (outcomes (install sys p) names w) = length names.
Proof.
  split; [|apply outcomes_length].
  revert w. induction names as [|name names IH]; intros w; [done|].
  pose proof (install_only sys p (λ ev, is_log ev = false)
                (λ _, eq_refl) (λ _ _, eq_refl) (λ _, eq_refl) name w)
    as Hquiet.
  cbn [run_install outcomes zip_with].
  unfold bind, emit, trace, result, world_after in *.
  destruct (install sys p name w) as [[err w1] t1]. simpl in Hquiet.
  specialize (IH w1).
  destruct err as [e|]; destruct (run_install sys p names w1) as [[u w2] t2];
    simpl in *;
    by rewrite List.filter_app, (filter_is_log_none _ Hquiet), <- IH.
Qed.

(** X22: the same for the targets to uninstall: the log records of the
    uninstall loop are, target by target, the record of what [uninstall]
    returned for it, each [uninstall] running in the world the ones before
    it left. *)
Theorem run_uninstall_reports (names : list string) (w : World) :
  List.filter is_log (trace (run_uninstall sys p names w))
  = zip_with (outcome_log "uninstalling") names
             (outcomes (uninstall sys p) names w) ∧
  length (outcomes (uninstall sys p) names w) = length names.
Proof.
  split; [|apply outcomes_length].
  revert w. induction names as [|name names IH]; intros w; [done|].
  pose proof (uninstall_only sys p (λ ev, is_log ev = false)
                (λ _, eq_refl) (λ _ _, eq_refl) name w)
    as Hquiet.
  cbn [run_uninstall outcomes zip_with].
  unfold bind, emit, trace, result, world_after in *.
  destruct (uninstall sys p name w) as [[err w1] t1]. simpl in Hquiet.
  specialize (IH w1).
  destruct err as [e|]; destruct (run_uninstall sys p names w1) as [[u w2] t2];
    simpl in *;
    by rewrite List.filter_app, (filter_is_log_none _ Hquiet), <- IH.
Qed.

End RunOutcomes.


(** ** The further theorems on the small system *)

Lemma install_unsupported_iff_foo :
  let p := Sim.process "foo" "" [] in
  configs !! "foo" = None ∧
  install Sim.sys p "foo" Sim.w_mounted
  = (Some (Errorf "unsupported architecture: %v" [ArgString "foo"]),
     Sim.w_mounted, []).
Proof.
  intros p.
  assert (configs !! "foo" = None) as Hnone by (vm_compute; reflexivity).
  split; [exact Hnone|].
  exact (proj1 (proj2 (install_unsupported_iff Sim.sys p "foo" Sim.w_mounted))
           Hnone).
Defined.

Lemma install_open_failure_unmounted :
  let p := Sim.process "arm64" "" [] in
  let w := Sim.w_unmountable in
  let register := "/proc/sys/fs/binfmt_misc/register" in
  ∃ cfg,
    configs !! "arm64" = Some cfg ∧
    os_OpenFile Sim.sys w register
    = Some (PathError "open" register (Errno ENOENT)) ∧
    install Sim.sys p "arm64" w
    = (Some (Errorf "ENOENT opening %s is it mounted?" [ArgString register]),
       w, [EvOpenFile register]).
Proof.
  intros p w register.
  pose (cfg := Config "qemu-aarch64"
     "\x7fELF\x02\x01\x01\x00\x00\x00\x00\x00\x00\x00\x00\x00\x02\x00\xb7\x00"
     "\xff\xff\xff\xff\xff\xff\xff\x00\xff\xff\xff\xff\xff\xff\xff\xff\xfe\xff\xff\xff").
  exists cfg.
  split; [vm_compute; reflexivity|]. split; [vm_compute; reflexivity|].
  apply (install_open_failure Sim.sys p "arm64" cfg w "open" register ENOENT);
    vm_compute; reflexivity.
Defined.

Lemma install_already_registered_riscv64 :
  let p := Sim.process "riscv64" "" [] in
  let w := Sim.w_mounted in
  let register := "/proc/sys/fs/binfmt_misc/register" in
  ∃ cfg line,
    configs !! "riscv64" = Some cfg ∧
    getBinaryNames p cfg = inr ("qemu-riscv64", "/usr/bin/qemu-riscv64") ∧
    os_OpenFile Sim.sys w register = None ∧
    file_Write Sim.sys w register line
    = (w, Some (PathError "write" register (Errno EEXIST))) ∧
    install Sim.sys p "riscv64" w
    = (Some (Errorf "%s already registered" [ArgString "qemu-riscv64"]), w,
       [EvOpenFile register; EvWrite register line; EvClose register]).
Proof.
  intros p w register.
  pose (cfg := Config "qemu-riscv64"
     "\x7fELF\x02\x01\x01\x00\x00\x00\x00\x00\x00\x00\x00\x00\x02\x00\xf3\x00"
     "\xff\xff\xff\xff\xff\xff\xff\x00\xff\xff\xff\xff\xff\xff\xff\xff\xfe\xff\xff\xff").
  exists cfg.
  exists (registration_line "qemu-riscv64" (magic cfg) (mask cfg)
            "/usr/bin/qemu-riscv64" (install_flags p)).
  split; [vm_compute; reflexivity|]. split; [vm_compute; reflexivity|].
  split; [vm_compute; reflexivity|]. split; [vm_compute; reflexivity|].
  apply (install_already_registered Sim.sys p "riscv64" cfg "qemu-riscv64"
           "/usr/bin/qemu-riscv64" w w "write" register);
    vm_compute; reflexivity.
Defined.

Lemma install_ok_iff_written_arm :
  let p := Sim.process "arm" "" [] in
  let w := Sim.w_mounted in
  let register := "/proc/sys/fs/binfmt_misc/register" in
  ∃ cfg line,
    configs !! "arm" = Some cfg ∧
    getBinaryNames p cfg = inr ("qemu-arm", "/usr/bin/qemu-arm") ∧
    os_OpenFile Sim.sys w register = None ∧
    (result (install Sim.sys p "arm" w) = None ↔
     (file_Write Sim.sys w register line).2 = None) ∧
    world_after (install Sim.sys p "arm" w)
    = (file_Write Sim.sys w register line).1 ∧
    trace (install Sim.sys p "arm" w)
    = [EvOpenFile register; EvWrite register line; EvClose register].
Proof.
  intros p w register.
  pose (cfg := Config "qemu-arm"
     "\x7fELF\x01\x01\x01\x00\x00\x00\x00\x00\x00\x00\x00\x00\x02\x00\x28\x00"
     "\xff\xff\xff\xff\xff\xff\xff\x00\xff\xff\xff\xff\xff\xff\xff\xff\xfe\xff\xff\xff").
  exists cfg.
  exists (registration_line "qemu-arm" (magic cfg) (mask cfg)
            "/usr/bin/qemu-arm" (install_flags p)).
  split; [vm_compute; reflexivity|]. split; [vm_compute; reflexivity|].
  split; [vm_compute; reflexivity|].
  apply (install_ok_iff_written Sim.sys p "arm" cfg "qemu-arm"
           "/usr/bin/qemu-arm" w);
    vm_compute; reflexivity.
Defined.

Lemma getBinaryNames_resolves_iff_buildkit :
  let p := Sim.process "arm" ""
             [("QEMU_BINARY_PREFIX", "buildkit-");
              ("QEMU_BINARY_PATH", "/opt/qemu/bin")] in
  let cfg := Config "qemu-arm" "" "" in
  getBinaryNames p cfg
  = inr ("buildkit-qemu-arm", "/opt/qemu/bin/buildkit-qemu-arm") ∧
  Strings.ContainsRune "buildkit-qemu-arm" Filepath.PathSeparator = false.
Proof.
  intros p cfg.
  assert (getBinaryNames p cfg
          = inr ("buildkit-qemu-arm", "/opt/qemu/bin/buildkit-qemu-arm"))
    as Hnames by (vm_compute; reflexivity).
  split; [exact Hnames|].
  destruct (proj2 (getBinaryNames_resolves_iff p cfg) _ _ Hnames)
    as (_ & _ & Hsep).
  apply Hsep. vm_compute. reflexivity.
Defined.

Lemma uninstall_spares_reserved_aarch64 :
  let p := Sim.process "" "aarch64" [] in
  let w := Sim.w_mounted in
  let ev := EvWriteFile "/proc/sys/fs/binfmt_misc/qemu-aarch64" "-1" in
  In ev (trace (uninstall Sim.sys p "aarch64" w)) ∧
  is_write ev = true ∧
  ∃ fis name,
    os_ReadDir Sim.sys w (mount p) = inr fis ∧ In name fis ∧
    name ≠ "register" ∧ name ≠ "status" ∧ name ≠ "WSLInterop" ∧
    uninstall_matches "aarch64" name = true ∧
    ev = EvWriteFile (Filepath.Join [mount p; name]) "-1".
Proof.
  intros p w ev.
  assert (In ev (trace (uninstall Sim.sys p "aarch64" w))) as Hin
    by (vm_compute; auto).
  split; [exact Hin|]. split; [reflexivity|].
  exact (proj2 (uninstall_spares_reserved Sim.sys p "aarch64" w) ev Hin eq_refl).
Defined.

Lemma printStatus_unreadable_entry_locked :
  let p := Sim.process "" "" [] in
  let w := Sim.w_mounted in
  let err := PathError "open" "/proc/sys/fs/binfmt_misc/qemu-riscv64" (Errno 13) in
  os_ReadDir locked_sys w (mount p)
  = inr (["qemu-aarch64"] ++ "qemu-riscv64" :: ["register"; "status"]) ∧
  (∀ name, In name ["qemu-aarch64"] → status_reserved name = false →
           ∃ dt, entry_content locked_sys p w name = inr dt) ∧
  status_reserved "qemu-riscv64" = false ∧
  entry_content locked_sys p w "qemu-riscv64" = inl err ∧
  result (printStatus locked_sys Sim.lib p w) = Some err ∧
  Forall (λ ev, is_print ev = false) (trace (printStatus locked_sys Sim.lib p w)).
Proof.
  intros p w err.
  assert (∀ name, In name ["qemu-aarch64"] → status_reserved name = false →
                  ∃ dt, entry_content locked_sys p w name = inr dt) as Hread.
  { intros name [<-|[]] _. eexists. vm_compute. reflexivity. }
  split; [reflexivity|]. split; [exact Hread|]. split; [reflexivity|].
  split; [vm_compute; reflexivity|].
  apply (printStatus_unreadable_entry locked_sys Sim.lib p
           ["qemu-aarch64"] ["register"; "status"] "qemu-riscv64" err w);
    [reflexivity | exact Hread | reflexivity | vm_compute; reflexivity].
Defined.

Lemma parseArch_tokens_three :
  let tokens := ["arm64"; "linux/amd64"; "foo"] in
  Strings.Join tokens "," ≠ "" ∧
  Forall (λ t, Strings.ContainsRune t ","%char = false) tokens ∧
  parseArch Sim.lib "" = [] ∧
  parseArch Sim.lib (Strings.Join tokens ",")
  = map (λ v, match platforms_Parse Sim.lib v with
              | inl _ => v
              | inr pl => Architecture pl
              end) tokens.
Proof.
  intros tokens.
  assert (Strings.Join tokens "," ≠ "") as Hne by (intro H; discriminate H).
  assert (Forall (λ t, Strings.ContainsRune t ","%char = false) tokens) as Hall
    by (repeat constructor).
  split; [exact Hne|]. split; [exact Hall|].
  apply (parseArch_tokens Sim.lib tokens Hne Hall).
Defined.

Lemma parseUninstall_targets_two :
  let p := Sim.process "" "aarch64,nothing" [] in
  let w := Sim.w_mounted in
  "aarch64,nothing" ≠ "" ∧
  result (parseUninstall Sim.sys Sim.lib p "aarch64,nothing" w)
  = concat (map (piece_targets Sim.sys Sim.lib p w)
                (Strings.Split "aarch64,nothing" ","%char)) ∧
  trace (parseUninstall Sim.sys Sim.lib p "aarch64,nothing" w)
  = map (λ v, EvGlob (Filepath.Join [mount p; uninstall_piece Sim.lib v]))
        (Strings.Split "aarch64,nothing" ","%char).
Proof.
  intros p w.
  assert ("aarch64,nothing" ≠ "") as Hne by (intro H; discriminate H).
  split; [exact Hne|].
  exact (proj1 (proj2 (proj2 (proj2
           (parseUninstall_targets Sim.sys Sim.lib p "aarch64,nothing" w))))
           Hne).
Defined.

Lemma parseUninstall_single_arm64 :
  let p := Sim.process "" "arm64" [] in
  let w := Sim.w_mounted in
  "arm64" ≠ "" ∧
  Strings.ContainsRune "arm64" ","%char = false ∧
  parseUninstall Sim.sys Sim.lib p "arm64" w
  = (["aarch64"], w, [EvGlob "/proc/sys/fs/binfmt_misc/aarch64"]).
Proof.
  intros p w.
  assert ("arm64" ≠ "") as Hne by (intro H; discriminate H).
  split; [exact Hne|]. split; [reflexivity|].
  exact (parseUninstall_single Sim.sys Sim.lib p "arm64" w Hne eq_refl).
Defined.

Lemma uninstall_target_matches_registered_arm64 :
  ∃ cfg,
    configs !! "arm64" = Some cfg ∧
    uninstall_matches (Strings.TrimPrefix (binary cfg) "qemu-")
                      ("buildkit-" +:+ binary cfg) = true.
Proof.
  eexists. split; [vm_compute; reflexivity|].
  apply (uninstall_target_matches_registered "arm64"). vm_compute. reflexivity.
Defined.

Lemma registered_names_distinct_arm_arm64 :
  let p := Sim.process "all" "" [("QEMU_BINARY_PREFIX", "buildkit-")] in
  ∃ c1 c2,
    configs !! "arm" = Some c1 ∧ configs !! "arm64" = Some c2 ∧
    "arm" ≠ "arm64" ∧
    getBinaryNames p c1 = inr ("buildkit-qemu-arm", "/usr/bin/buildkit-qemu-arm") ∧
    getBinaryNames p c2
    = inr ("buildkit-qemu-aarch64", "/usr/bin/buildkit-qemu-aarch64") ∧
    "buildkit-qemu-arm" ≠ "buildkit-qemu-aarch64" ∧
    Strings.ContainsRune "buildkit-qemu-arm" Filepath.PathSeparator = false ∧
    Strings.ContainsRune "buildkit-qemu-aarch64" Filepath.PathSeparator = false.
Proof.
  intros p.
  pose (c1 := Config "qemu-arm"
     "\x7fELF\x01\x01\x01\x00\x00\x00\x00\x00\x00\x00\x00\x00\x02\x00\x28\x00"
     "\xff\xff\xff\xff\xff\xff\xff\x00\xff\xff\xff\xff\xff\xff\xff\xff\xfe\xff\xff\xff").
  pose (c2 := Config "qemu-aarch64"
     "\x7fELF\x02\x01\x01\x00\x00\x00\x00\x00\x00\x00\x00\x00\x02\x00\xb7\x00"
     "\xff\xff\xff\xff\xff\xff\xff\x00\xff\xff\xff\xff\xff\xff\xff\xff\xfe\xff\xff\xff").
  exists c1, c2.
  assert ("arm" ≠ "arm64") as Hne by (intro H; discriminate H).
  split; [vm_compute; reflexivity|]. split; [vm_compute; reflexivity|].
  split; [exact Hne|].
  split; [vm_compute; reflexivity|]. split; [vm_compute; reflexivity|].
  apply (registered_names_distinct p "arm" "arm64" c1 c2
           "buildkit-qemu-arm" "/usr/bin/buildkit-qemu-arm"
           "buildkit-qemu-aarch64" "/usr/bin/buildkit-qemu-aarch64");
    [vm_compute; reflexivity | vm_compute; reflexivity | exact Hne
    | vm_compute; reflexivity | vm_compute; reflexivity].
Defined.

Lemma registration_record_fields_arm :
  ∃ cfg,
    configs !! "arm" = Some cfg ∧
    Strings.ContainsRune "qemu-arm" ":"%char = false ∧
    Strings.ContainsRune "/usr/bin/qemu-arm" ":"%char = false ∧
    Strings.ContainsRune "CF" ":"%char = false ∧
    record_fields
      (registration_line "qemu-arm" (magic cfg) (mask cfg)
                         "/usr/bin/qemu-arm" "CF")
    = [""; "qemu-arm"; "M"; "0"; magic cfg; mask cfg; "/usr/bin/qemu-arm"; "CF"].
Proof.
  eexists. split; [vm_compute; reflexivity|].
  split; [reflexivity|]. split; [reflexivity|]. split; [reflexivity|].
  apply (registration_record_fields "arm"); [vm_compute|..]; reflexivity.
Defined.

Lemma configs_match_only_elf_amd64 :
  let s := [127; 69; 76; 70; 2; 1; 1; 0; 0; 0; 0; 0; 0; 0; 0; 0; 2; 0; 62; 0;
            1; 0; 0; 0] in
  ∃ c,
    configs !! "amd64" = Some c ∧
    Forall (λ b, 0 ≤ b < 256) s ∧
    sig_matches c s = true ∧
    take 4 s = [127; 69; 76; 70] ∧ (20 ≤ length s)%nat.
Proof.
  intros s.
  assert (Forall (λ b, 0 ≤ b < 256) s) as Hrange by (repeat constructor; lia).
  pose (c := Config "qemu-x86_64"
     "\x7fELF\x02\x01\x01\x00\x00\x00\x00\x00\x00\x00\x00\x00\x02\x00\x3e\x00"
     "\xff\xff\xff\xff\xff\xfe\xfe\x00\xff\xff\xff\xff\xff\xff\xff\xff\xfe\xff\xff\xff").
  exists c. split; [vm_compute; reflexivity|].
  split; [exact Hrange|]. split; [vm_compute; reflexivity|].
  apply (configs_match_only_elf "amd64" c s);
    [vm_compute; reflexivity | exact Hrange | vm_compute; reflexivity].
Defined.

Lemma allArch_order_independent_reversed :
  let p := Sim.process "all" "" [] in
  let p' := {| mount := mount p; toInstall := toInstall p;
               toUninstall := toUninstall p; flVersion := flVersion p;
               environ := environ p;
               range_configs := rev (range_configs p) |} in
  environ p = environ p' ∧
  (range_configs p ≡ₚ range_configs p') ∧
  (result (allArch Sim.sys Sim.lib p Sim.w_mounted)
   ≡ₚ result (allArch Sim.sys Sim.lib p' Sim.w_mounted)).
Proof.
  intros p p'.
  assert (range_configs p ≡ₚ range_configs p') as Horder
    by (symmetry; apply Permutation_rev).
  split; [reflexivity|]. split; [exact Horder|].
  apply (allArch_order_independent Sim.sys Sim.lib p p' Sim.w_mounted eq_refl
           Horder).
Defined.

Lemma allArch_read_only_mounted :
  let p := Sim.process "all" "" [] in
  NoDup (range_configs p) ∧
  NoDup (result (allArch Sim.sys Sim.lib p Sim.w_mounted)).
Proof.
  intros p.
  assert (NoDup (range_configs p)) as Hnodup
    by (apply (bool_decide_unpack _); vm_compute; exact I).
  split; [exact Hnodup|].
  exact (proj2 (proj2 (proj2 (allArch_read_only Sim.sys Sim.lib p Sim.w_mounted)))
           Hnodup).
Defined.

Lemma allArch_bad_prefix_dotdot :
  let p := Sim.process "all" "" [("QEMU_BINARY_PREFIX", "../")] in
  let w := Sim.w_mounted in
  Strings.ContainsRune (Getenv p "QEMU_BINARY_PREFIX") Filepath.PathSeparator
  = true ∧
  result (allArch Sim.sys Sim.lib p w)
  = List.filter (λ name, bool_decide (name ∉ supported_archs Sim.sys Sim.lib w))
                (range_configs p) ∧
  Forall (λ ev, ∀ path, ev ≠ EvStat path) (trace (allArch Sim.sys Sim.lib p w)).
Proof.
  intros p w. split; [vm_compute; reflexivity|].
  apply (allArch_bad_prefix Sim.sys Sim.lib p w). vm_compute. reflexivity.
Defined.

Lemma run_already_mounted_arm :
  let p := Sim.process "arm" "" [] in
  let w := Sim.w_mounted in
  flVersion p = false ∧
  os_Stat Sim.sys w (Filepath.Join [mount p; "status"]) = None ∧
  run Sim.sys Sim.lib p w
  = (result (run_mounted Sim.sys Sim.lib p w),
     world_after (run_mounted Sim.sys Sim.lib p w),
     EvStat (Filepath.Join [mount p; "status"])
     :: trace (run_mounted Sim.sys Sim.lib p w)) ∧
  Forall (λ ev, is_mount ev = false) (trace (run Sim.sys Sim.lib p w)).
Proof.
  intros p w.
  assert (os_Stat Sim.sys w (Filepath.Join [mount p; "status"]) = None)
    as Hstat by (vm_compute; reflexivity).
  split; [reflexivity|]. split; [exact Hstat|].
  apply (run_already_mounted Sim.sys Sim.lib p w eq_refl Hstat).
Defined.

Lemma run_mounts_and_unmounts_mountable :
  let p := Sim.process "" "" [] in
  let w := w_mountable in
  let w1 := {| Sim.mounted := true; Sim.mountable := true;
               Sim.entries := Sim.entries w; Sim.disk := Sim.disk w;
               Sim.native := Sim.native w |} in
  flVersion p = false ∧
  is_Some (os_Stat Sim.sys w (Filepath.Join [mount p; "status"])) ∧
  syscall_Mount Sim.sys w "binfmt_misc" (mount p) "binfmt_misc" = (w1, None) ∧
  trace (run Sim.sys Sim.lib p w)
  = [EvStat "/proc/sys/fs/binfmt_misc/status";
     EvMount "binfmt_misc" "/proc/sys/fs/binfmt_misc" "binfmt_misc";
     EvReadDir "/proc/sys/fs/binfmt_misc";
     EvSupportedPlatforms;
     EvPrint {| Supported := ["linux/amd64"]; Emulators := [] |};
     EvUnmount "/proc/sys/fs/binfmt_misc"].
Proof.
  intros p w w1.
  assert (is_Some (os_Stat Sim.sys w (Filepath.Join [mount p; "status"])))
    as Hstat by (eexists; vm_compute; reflexivity).
  split; [reflexivity|]. split; [exact Hstat|]. split; [reflexivity|].
  rewrite (proj1 (run_mounts_and_unmounts Sim.sys Sim.lib p w w1 eq_refl Hstat
                    eq_refl)).
  vm_compute. reflexivity.
Defined.

(** X23: with neither [QEMU_BINARY_PATH] nor [QEMU_BINARY_PREFIX] set, every
    architecture of [configs] resolves to its binary under [/usr/bin]: the
    name is the binary and the path is [/usr/bin/] followed by it. *)
Theorem getBinaryNames_default (p : Process) (arch : string) (cfg : config) :
  configs !! arch = Some cfg →
  Getenv p "QEMU_BINARY_PATH" = "" →
  Getenv p "QEMU_BINARY_PREFIX" = "" →
  getBinaryNames p cfg = inr (binary cfg, "/usr/bin/" +:+ binary cfg).
Proof.
  intros Hcfg Hpath Hprefix. unfold getBinaryNames.
  rewrite Hpath, Hprefix. simpl. do 2 f_equal.
  apply String.eqb_eq. revert arch cfg Hcfg.
  apply (configs_forall
           (λ _ c, String.eqb (Filepath.Join ["/usr/bin"; binary c])
                              ("/usr/bin/" +:+ binary c))).
  vm_compute. reflexivity.
Qed.

Lemma getBinaryNames_default_amd64 :
  let p := Sim.process "amd64" "" [] in
  ∃ cfg,
    configs !! "amd64" = Some cfg ∧
    Getenv p "QEMU_BINARY_PATH" = "" ∧
    Getenv p "QEMU_BINARY_PREFIX" = "" ∧
    getBinaryNames p cfg = inr ("qemu-x86_64", "/usr/bin/qemu-x86_64").
Proof.
  intros p.
  pose (cfg := Config "qemu-x86_64"
     "\x7fELF\x02\x01\x01\x00\x00\x00\x00\x00\x00\x00\x00\x00\x02\x00\x3e\x00"
     "\xff\xff\xff\xff\xff\xfe\xfe\x00\xff\xff\xff\xff\xff\xff\xff\xff\xfe\xff\xff\xff").
  exists cfg. split; [vm_compute; reflexivity|].
  split; [reflexivity|]. split; [reflexivity|].
  apply (getBinaryNames_default p "amd64" cfg);
    [vm_compute; reflexivity | reflexivity | reflexivity].
Defined.
